(** * Renumber: the mapping store, the statistics and the practice session

    A shallow embedding of [src/context/AppContext.tsx] and
    [src/screens/PracticeScreen.tsx].

    Conventions of the embedding.
    - A JavaScript string is the [string] of the bytes of its UTF-8
      encoding (a string with an unpaired surrogate has none and is outside
      the model).  The texts whose length or characters the program reads,
      numbers and keys, are ASCII, where a byte is a UTF-16 code unit.
    - A JavaScript number is a binary64 value ([spec_float] at precision
      53, exponent bound 1024).  A slot index or a millisecond clock reading
      is kept as a [nat] or a [Z]; nothing is added to them.  A counter
      ([usageCount], [successCount]) is an integral binary64 value kept as
      the integer it stands for, and [counter + 1] is the binary64 addition
      [plus]: exact up to 2^53, where it stops.  The percentages are
      [spec_float] values.
    - A JavaScript object used as a dictionary with string keys is a
      [gmap string _] of its own properties, read with [getProperty], which
      also finds the properties every object inherits from
      [Object.prototype]; an object keyed by slot index is an association
      list kept in ascending key order, the order in which [Object.keys] and
      [Object.entries] enumerate integer keys.
    - [setState (prev => next)] is the function [prev => next]; values read
      from the environment (the clock, the random draws) are arguments. *)

From Stdlib Require Import ZArith Lia List String Ascii Sorted.
From Stdlib Require Import Floats.SpecFloat.
From stdpp Require Import gmap strings list fin_maps.

Local Open Scope string_scope.
Local Open Scope Z_scope.

(** ** JavaScript primitives used by the source *)

Section JsStrings.

Definition digitChar (d : Z) : ascii := ascii_of_nat (48 + Z.to_nat d).

(** Decimal digits of a non-negative integer, most significant first;
    [fuel + 1] digits at most. *)
Fixpoint digitsOf (fuel : nat) (n : Z) (acc : string) : string :=
  let acc' := String (digitChar (n mod 10)) acc in
  match fuel with
  | O => acc'
  | S fuel' => if n / 10 =? 0 then acc' else digitsOf fuel' (n / 10) acc'
  end.

(** [Number.prototype.toString] on an integer (below 10^21 in absolute
    value, where JavaScript switches to the exponent notation). *)
Definition toString (n : Z) : string :=
  if n <? 0 then String "-" (digitsOf (Z.to_nat (Z.log2 (- n))) (- n) "")
  else digitsOf (Z.to_nat (Z.log2 n)) n "".

Fixpoint repeatChar (c : ascii) (n : nat) : string :=
  match n with
  | O => ""
  | S n' => String c (repeatChar c n')
  end.

(** [s.padStart(targetLength, '0')]. *)
Definition padStart (targetLength : nat) (s : string) : string :=
  repeatChar "0" (targetLength - String.length s) +:+ s.

(** [s[i]]: the one-character string at index [i], [None] for
    [undefined]. *)
Definition charAt (s : string) (i : nat) : option string :=
  match String.get i s with
  | Some c => Some (String c "")
  | None => None
  end.

(** An optional string used as a property key or inside a template:
    [undefined] is coerced to the text "undefined". *)
Definition keyOf (o : option string) : string := default "undefined" o.

(** The white space and the line terminators of ECMAScript, by the bytes
    of their UTF-8 encoding: U+0009 to U+000D and U+0020 in one byte; U+00A0
    in two, C2 A0; in three, U+1680 (E1 9A 80), U+2000 to U+200A, U+2028,
    U+2029 and U+202F (E2 80 80 to 8A, A8, A9, AF), U+205F (E2 81 9F),
    U+3000 (E3 80 80) and U+FEFF (EF BB BF). *)
Definition isSpace1 (a : ascii) : bool :=
  let x := nat_of_ascii a in
  ((9 <=? x)%nat && (x <=? 13)%nat) || (x =? 32)%nat.

Definition isSpace2 (a b : ascii) : bool :=
  (nat_of_ascii a =? 194)%nat && (nat_of_ascii b =? 160)%nat.

Definition isSpace3 (a b c : ascii) : bool :=
  let x := nat_of_ascii a in
  let y := nat_of_ascii b in
  let z := nat_of_ascii c in
  ((x =? 225) && (y =? 154) && (z =? 128))%nat
  || ((x =? 226)%nat && (y =? 128)%nat
      && (((128 <=? z)%nat && (z <=? 138)%nat)
          || (z =? 168)%nat || (z =? 169)%nat || (z =? 175)%nat))
  || ((x =? 226) && (y =? 129) && (z =? 159))%nat
  || ((x =? 227) && (y =? 128) && (z =? 128))%nat
  || ((x =? 239) && (y =? 187) && (z =? 191))%nat.

Fixpoint trimStart (s : string) : string :=
  match s with
  | String a s1 =>
      if isSpace1 a then trimStart s1
      else
        match s1 with
        | String b s2 =>
            if isSpace2 a b then trimStart s2
            else
              match s2 with
              | String c s3 => if isSpace3 a b c then trimStart s3 else s
              | EmptyString => s
              end
        | EmptyString => s
        end
  | EmptyString => ""
  end.

(** The text is made of white space only. *)
Fixpoint allSpace (s : string) : bool :=
  match s with
  | String a s1 =>
      if isSpace1 a then allSpace s1
      else
        match s1 with
        | String b s2 =>
            if isSpace2 a b then allSpace s2
            else
              match s2 with
              | String c s3 => isSpace3 a b c && allSpace s3
              | EmptyString => false
              end
        | EmptyString => false
        end
  | EmptyString => true
  end.

Fixpoint trimEnd (s : string) : string :=
  match s with
  | String c s' => if allSpace s then "" else String c (trimEnd s')
  | EmptyString => ""
  end.

(** [s.trim()]. *)
Definition trim (s : string) : string := trimEnd (trimStart s).

(** Truthiness of a string: every string but the empty one. *)
Definition truthy (s : string) : bool :=
  match s with
  | EmptyString => false
  | _ => true
  end.

Definition isDigit (c : ascii) : bool :=
  let n := nat_of_ascii c in (48 <=? n)%nat && (n <=? 57)%nat.

(** [/^[0-9]?$/.test(value)]. *)
Definition isDigitOrEmpty (value : string) : bool :=
  match value with
  | EmptyString => true
  | String c EmptyString => isDigit c
  | _ => false
  end.

(** [Number(key)] on the text of an array index: [None] is [NaN]. *)
Fixpoint parseDigits (acc : nat) (s : string) : option nat :=
  match s with
  | EmptyString => Some acc
  | String c s' =>
      if isDigit c then parseDigits (10 * acc + (nat_of_ascii c - 48))%nat s'
      else None
  end.

Definition NumberOfKey (key : string) : option nat :=
  match key with
  | EmptyString => None
  | _ => parseDigits 0%nat key
  end.

(** The rest of a text after its first character, when that is [c]. *)
Definition expect (c : ascii) (s : string) : option string :=
  match s with
  | String c' s' => if Ascii.eqb c c' then Some s' else None
  | EmptyString => None
  end.

(** [strings.join(sep)]. *)
Fixpoint join (sep : string) (l : list string) : string :=
  match l with
  | [] => ""
  | [x] => x
  | x :: l' => x +:+ sep +:+ join sep l'
  end.

(** [keys.sort()]: the default order compares the strings code unit by
    code unit. *)
Fixpoint insertSorted (x : string) (l : list string) : list string :=
  match l with
  | [] => [x]
  | y :: l' => if String.leb x y then x :: l else y :: insertSorted x l'
  end.

Definition sortStrings (l : list string) : list string :=
  foldr insertSorted [] l.

End JsStrings.

(** ** Numbers ([+], [/], [*], [Math.round]) *)

Section Numbers.

(** The binary64 value of an integer, and the operations the source
    applies. *)
Definition Number (z : Z) : spec_float := binary_normalize 53 1024 z 0 false.
Definition fadd : spec_float -> spec_float -> spec_float := SFadd 53 1024.
Definition fdiv : spec_float -> spec_float -> spec_float := SFdiv 53 1024.
Definition fmul : spec_float -> spec_float -> spec_float := SFmul 53 1024.

(** The integer an integral binary64 value stands for. *)
Definition integerOf (x : spec_float) : Z :=
  match x with
  | S754_finite s m e =>
      let n := if s then Z.neg m else Z.pos m in
      if 0 <=? e then n * 2 ^ e else n / 2 ^ (- e)
  | _ => 0
  end.

(** [a + b] on counters: the binary64 sum of the two values. *)
Definition plus (a b : Z) : Z := integerOf (fadd (Number a) (Number b)).

(** The integer [Math.round] picks for the finite value [(-1)^s * m * 2^e]
    with [e < 0]: the nearest one, the larger of the two on a tie. *)
Definition roundedInteger (s : bool) (m : positive) (e : Z) : Z :=
  let n := if s then Z.neg m else Z.pos m in
  (2 * n + 2 ^ (- e)) / 2 ^ (1 - e).

(** [Math.round]: integral values, the infinities and [NaN] are returned
    as they are; a result of zero keeps the sign of the argument. *)
Definition Math_round (x : spec_float) : spec_float :=
  match x with
  | S754_finite s m e =>
      if 0 <=? e then x
      else
        let r := roundedInteger s m e in
        if r =? 0 then S754_zero s else Number r
  | _ => x
  end.

End Numbers.

(** ** Objects read as dictionaries, and updates that throw *)

(** The names of the properties of [Object.prototype], which every object
    literal and every spread copy inherits.  Each of them is a function, or
    for [__proto__] the prototype object itself: a truthy value without a
    [tags] property. *)
Definition Object_prototype : list string :=
  [ "constructor"; "hasOwnProperty"; "isPrototypeOf"; "propertyIsEnumerable";
    "toLocaleString"; "toString"; "valueOf"; "__proto__";
    "__defineGetter__"; "__defineSetter__";
    "__lookupGetter__"; "__lookupSetter__" ].

Definition inherited (key : string) : bool :=
  existsb (String.eqb key) Object_prototype.

(** What [obj[key]] finds. *)
Inductive Property (A : Type) :=
| Own (a : A)
| Inherited
| Undefined.
Arguments Own {A} a.
Arguments Inherited {A}.
Arguments Undefined {A}.

Definition getProperty {A} (obj : gmap string A) (key : string) : Property A :=
  match obj !! key with
  | Some a => Own a
  | None => if inherited key then Inherited else Undefined
  end.

(** A state update returns the next state or throws a [TypeError], as
    [mapping.tags] does not exist on an inherited property. *)
Inductive Outcome (A : Type) :=
| Returns (a : A)
| TypeError.
Arguments Returns {A} a.
Arguments TypeError {A}.

(** ** The data model ([AppContext.tsx], lines 4-41)

    The fields [id] of the source are [tag_id], [mapping_id] and [test_id]
    here; [difficulty] and [successRate] of a test result are
    [test_difficulty] and [test_successRate]. *)

Record Tag := mkTag {
  tag_id : string;
  label : string;
  usageCount : Z;
  successCount : Z;
}.

Record NumberMapping := mkMapping {
  mapping_id : string;
  number : string;
  tags : list Tag;
}.

Inductive Difficulty := Easy | Moderate | Hard | Expert.

Record TestResult := mkTestResult {
  test_id : string;
  date : string;
  test_difficulty : Difficulty;
  test_successRate : spec_float;
}.

Record AppState := mkAppState {
  mappings : gmap string NumberMapping;
  tests : list TestResult;
}.

Record UsedTag := mkUsedTag {
  numberValue : string;
  tagId : string;
  correct : bool;
}.

Definition INITIAL_STATE : AppState := {| mappings := ∅; tests := [] |}.

(** ** Seeding ([generateNumbers], [hydrateMappings]) *)

(** The inner loop of [generateNumbers]: [i.toString().padStart(length, '0')]
    for [i] from 0 to [10^length - 1]. *)
Definition numbersOfLength (length : nat) : list string :=
  map (fun i => padStart length (toString (Z.of_nat i)))
      (seq 0 (Z.to_nat (10 ^ Z.of_nat length))).

Definition generateNumbers : list string :=
  flat_map numbersOfLength [1; 2; 3]%nat.

Definition emptyMapping (value : string) : NumberMapping :=
  {| mapping_id := value; number := value; tags := [] |}.

Definition hydrateMappings : gmap string NumberMapping :=
  foldl (fun mappings value => <[value := emptyMapping value]> mappings)
        ∅ generateNumbers.

(** ** The mapping store ([addTag], [updateTag], [recordTest]) *)

Definition setTags (mapping : NumberMapping) (ts : list Tag) : NumberMapping :=
  {| mapping_id := mapping_id mapping; number := number mapping; tags := ts |}.

Definition setMappings (prev : AppState) (m : gmap string NumberMapping)
  : AppState :=
  {| mappings := m; tests := tests prev |}.

(** [{ ...INITIAL_STATE, mappings: hydrateMappings() }]. *)
Definition seedState : AppState := setMappings INITIAL_STATE hydrateMappings.

(** [`${numberValue}-${Date.now()}`]. *)
Definition nextIdOf (now : Z) (numberValue : string) : string :=
  numberValue +:+ "-" +:+ toString now.

(** [addTag]: the identifier is built before the state update is queued
    and is returned whatever the update does. *)
Definition addTag (now : Z) (numberValue label : string) (prev : AppState)
  : string * Outcome AppState :=
  let nextId := nextIdOf now numberValue in
  (nextId,
   match getProperty (mappings prev) numberValue with
   | Undefined => Returns prev
   | Inherited => TypeError
   | Own mapping =>
       let nextTag :=
         {| tag_id := nextId; label := label;
            usageCount := 0; successCount := 0 |} in
       Returns
         (setMappings prev
            (<[numberValue := setTags mapping (tags mapping ++ [nextTag])]>
               (mappings prev)))
   end).

Definition relabel (tagId label : string) (tag : Tag) : Tag :=
  if String.eqb (tag_id tag) tagId
  then {| tag_id := tag_id tag; label := label;
          usageCount := usageCount tag; successCount := successCount tag |}
  else tag.

Definition updateTag (numberValue tagId label : string) (prev : AppState)
  : Outcome AppState :=
  match getProperty (mappings prev) numberValue with
  | Undefined => Returns prev
  | Inherited => TypeError
  | Own mapping =>
      Returns
        (setMappings prev
           (<[numberValue :=
                setTags mapping (map (relabel tagId label) (tags mapping))]>
              (mappings prev)))
  end.

Definition bump (tagId : string) (correct : bool) (tag : Tag) : Tag :=
  if String.eqb (tag_id tag) tagId
  then {| tag_id := tag_id tag; label := label tag;
          usageCount := plus (usageCount tag) 1;
          successCount := plus (successCount tag) (if correct then 1 else 0) |}
  else tag.

(** The body of the [forEach] of [recordTest]. *)
Definition applyUsedTag (updatedMappings : gmap string NumberMapping)
  (u : UsedTag) : Outcome (gmap string NumberMapping) :=
  match getProperty updatedMappings (numberValue u) with
  | Undefined => Returns updatedMappings
  | Inherited => TypeError
  | Own mapping =>
      Returns
        (<[numberValue u :=
             setTags mapping (map (bump (tagId u) (correct u)) (tags mapping))]>
           updatedMappings)
  end.

(** [usedTags.forEach(...)]: the entries in order, each on the mappings
    the earlier ones left; a throw ends the loop and the update. *)
Fixpoint forEach (updatedMappings : gmap string NumberMapping)
  (usedTags : list UsedTag) : Outcome (gmap string NumberMapping) :=
  match usedTags with
  | [] => Returns updatedMappings
  | u :: rest =>
      match applyUsedTag updatedMappings u with
      | Returns updated => forEach updated rest
      | TypeError => TypeError
      end
  end.

Definition recordTest (result : TestResult) (usedTags : list UsedTag)
  (prev : AppState) : Outcome AppState :=
  match forEach (mappings prev) usedTags with
  | Returns updatedMappings =>
      Returns {| mappings := updatedMappings; tests := result :: tests prev |}
  | TypeError => TypeError
  end.

(** Every operation the provider exposes, as data. *)
Inductive StoreOp :=
| OpAddTag (now : Z) (numberValue label : string)
| OpUpdateTag (numberValue tagId label : string)
| OpRecordTest (result : TestResult) (usedTags : list UsedTag).

Definition applyOp (op : StoreOp) (prev : AppState) : Outcome AppState :=
  match op with
  | OpAddTag now numberValue label => snd (addTag now numberValue label prev)
  | OpUpdateTag numberValue tagId label => updateTag numberValue tagId label prev
  | OpRecordTest result usedTags => recordTest result usedTags prev
  end.

(** States the provider can hold after the seed was adopted: an update
    that throws gives no state. *)
Inductive storeReachable : AppState -> Prop :=
| reach_seed : storeReachable seedState
| reach_op op s s' :
    storeReachable s -> applyOp op s = Returns s' -> storeReachable s'.

(** ** The statistics ([getTagRates]) *)


(** [(a / b) * 100], evaluated in binary64 as the source writes it. *)
Definition percentOf (a b : Z) : spec_float :=
  fmul (fdiv (Number a) (Number b)) (Number 100).



(** ** Dates ([Date.prototype.toISOString], [new Date(text).getTime()]) *)

Section Dates.

Definition msPerDay : Z := 24 * 60 * 60 * 1000.

(** Days from 1970-01-01 to the given day of the proleptic Gregorian
    calendar. *)
Definition daysFromCivil (y m d : Z) : Z :=
  let y' := if m <=? 2 then y - 1 else y in
  let era := y' / 400 in
  let yoe := y' - era * 400 in
  let doy := (153 * (if 2 <? m then m - 3 else m + 9) + 2) / 5 + d - 1 in
  let doe := yoe * 365 + yoe / 4 - yoe / 100 + doy in
  era * 146097 + doe - 719468.

Definition civilFromDays (z : Z) : Z * Z * Z :=
  let z' := z + 719468 in
  let era := z' / 146097 in
  let doe := z' - era * 146097 in
  let yoe := (doe - doe / 1460 + doe / 36524 - doe / 146096) / 365 in
  let doy := doe - (365 * yoe + yoe / 4 - yoe / 100) in
  let mp := (5 * doy + 2) / 153 in
  let d := doy - (153 * mp + 2) / 5 + 1 in
  let m := if mp <? 10 then mp + 3 else mp - 9 in
  (yoe + era * 400 + (if m <=? 2 then 1 else 0), m, d).

Definition pad (width : nat) (n : Z) : string := padStart width (toString n).

Definition yearText (y : Z) : string :=
  if (0 <=? y) && (y <=? 9999) then pad 4 y
  else if y <? 0 then "-" +:+ pad 6 (- y)
  else "+" +:+ pad 6 y.

(** [new Date(t).toISOString()] for a time value [t] in milliseconds. *)
Definition toISOString (t : Z) : string :=
  let '(y, m, d) := civilFromDays (t / msPerDay) in
  let ms := t mod msPerDay in
  yearText y +:+ "-" +:+ pad 2 m +:+ "-" +:+ pad 2 d +:+ "T"
    +:+ pad 2 (ms / 3600000) +:+ ":" +:+ pad 2 (ms / 60000 mod 60) +:+ ":"
    +:+ pad 2 (ms / 1000 mod 60) +:+ "." +:+ pad 3 (ms mod 1000) +:+ "Z".

(** [count] decimal digits at the head of a text. *)
Fixpoint takeDigits (count : nat) (acc : Z) (s : string)
  : option (Z * string) :=
  match count with
  | O => Some (acc, s)
  | S count' =>
      match s with
      | String c s' =>
          if isDigit c
          then takeDigits count' (10 * acc + Z.of_nat (nat_of_ascii c - 48)) s'
          else None
      | EmptyString => None
      end
  end.

Definition isLeap (y : Z) : bool :=
  ((y mod 4 =? 0) && negb (y mod 100 =? 0)) || (y mod 400 =? 0).

Definition daysInMonth (y m : Z) : Z :=
  if m =? 2 then (if isLeap y then 29 else 28)
  else if (m =? 4) || (m =? 6) || (m =? 9) || (m =? 11) then 30
  else 31.

(** [new Date(text).getTime()] on the format [toISOString] writes for the
    years 0000 to 9999, [YYYY-MM-DDTHH:mm:ss.sssZ]; [None] stands for
    [NaN].  Other spellings of a date, which an engine may also accept, are
    outside this model. *)
Definition getTime (text : string) : option Z :=
  '(y, s) ← takeDigits 4 0 text;
  s ← expect "-" s;
  '(m, s) ← takeDigits 2 0 s;
  s ← expect "-" s;
  '(d, s) ← takeDigits 2 0 s;
  s ← expect "T" s;
  '(hh, s) ← takeDigits 2 0 s;
  s ← expect ":" s;
  '(mm, s) ← takeDigits 2 0 s;
  s ← expect ":" s;
  '(ss, s) ← takeDigits 2 0 s;
  s ← expect "." s;
  '(ms, s) ← takeDigits 3 0 s;
  s ← expect "Z" s;
  if String.eqb s ""
     && (1 <=? m) && (m <=? 12) && (1 <=? d) && (d <=? daysInMonth y m)
     && (hh <=? 23) && (mm <=? 59) && (ss <=? 59)
  then Some (daysFromCivil y m d * msPerDay
             + hh * 3600000 + mm * 60000 + ss * 1000 + ms)
  else None.

End Dates.

(** ** The recent-activity count ([testsLast24h]) *)

Section History.

(** The platform's reading of a stored date; [None] is [NaN]. *)
Variable parseTime : string -> option Z.

(** [new Date(test.date).getTime() >= cutoff]; a comparison with [NaN]
    is false. *)
Definition notBefore (cutoff : Z) (test : TestResult) : bool :=
  match parseTime (date test) with
  | Some t => cutoff <=? t
  | None => false
  end.

(** [testsLast24h], with [now] the value of [Date.now()] when the memo is
    computed. *)
Definition testsLast24h (now : Z) (tests : list TestResult) : nat :=
  let cutoff := now - 24 * 60 * 60 * 1000 in
  length (List.filter (notBefore cutoff) tests).

(** The count as the specification words it: the tests whose time lies
    in the closed interval from [now - windowMs] to [now]. *)
Definition withinWindow (windowMs now : Z) (test : TestResult) : bool :=
  match parseTime (date test) with
  | Some t => (now - windowMs <=? t) && (t <=? now)
  | None => false
  end.

Definition recentCount (tests : list TestResult) (windowMs now : Z) : nat :=
  length (List.filter (withinWindow windowMs now) tests).

End History.

(** ** Persistence ([loadState] and the mount effect of [AppProvider]) *)

(** *** [JSON.parse] *)

#[local] Set Warnings "-register-all".

(** A parsed JSON text.  A number keeps its decimal reading
    [(-1)^neg * mantissa * 10^exp10]; a string keeps the text between its
    quotes, escapes undecoded. *)
Inductive json :=
| JNull
| JBool (b : bool)
| JNumber (neg : bool) (mantissa exp10 : Z)
| JString (raw : string)
| JArray (elements : list json)
| JObject (members : list (string * json)).

Inductive parsed (A : Type) :=
| Parsed (a : A) (rest : string)
| SyntaxError
| OutOfFuel.
Arguments Parsed {A} a rest.
Arguments SyntaxError {A}.
Arguments OutOfFuel {A}.

Definition andThen {A B} (p : parsed A) (k : A -> string -> parsed B)
  : parsed B :=
  match p with
  | Parsed a rest => k a rest
  | SyntaxError => SyntaxError
  | OutOfFuel => OutOfFuel
  end.

Section JsonText.

Definition isJsonSpace (c : ascii) : bool :=
  let n := nat_of_ascii c in
  (n =? 32)%nat || (n =? 9)%nat || (n =? 10)%nat || (n =? 13)%nat.

Fixpoint skipWs (s : string) : string :=
  match s with
  | String c s' => if isJsonSpace c then skipWs s' else s
  | EmptyString => s
  end.

Fixpoint dropPrefix (prefix s : string) : option string :=
  match prefix, s with
  | EmptyString, _ => Some s
  | String a prefix', String b s' =>
      if Ascii.eqb a b then dropPrefix prefix' s' else None
  | String _ _, EmptyString => None
  end.

Definition isHex (c : ascii) : bool :=
  let n := nat_of_ascii c in
  isDigit c || ((65 <=? n)%nat && (n <=? 70)%nat)
  || ((97 <=? n)%nat && (n <=? 102)%nat).

Definition fourHex (s : string) : bool :=
  match s with
  | String a (String b (String c (String d _))) =>
      isHex a && isHex b && isHex c && isHex d
  | _ => false
  end.

(** The double quote. *)
Definition quoteChar : ascii := ascii_of_nat 34.

Definition isEscape (c : ascii) : bool :=
  existsb (Ascii.eqb c)
    [quoteChar ; "\" ; "/" ; "b" ; "f" ; "n" ; "r" ; "t"]%char.

(** The characters of a string literal after its opening quote. *)
Fixpoint stringBody (s : string) : parsed string :=
  match s with
  | EmptyString => SyntaxError
  | String c s' =>
      if Ascii.eqb c quoteChar then Parsed "" s'
      else if Ascii.eqb c "\" then
        match s' with
        | String e s'' =>
            if isEscape e || (Ascii.eqb e "u" && fourHex s'')
            then andThen (stringBody s'')
                   (fun body rest => Parsed (String c (String e body)) rest)
            else SyntaxError
        | EmptyString => SyntaxError
        end
      else if (nat_of_ascii c <? 32)%nat then SyntaxError
      else andThen (stringBody s')
             (fun body rest => Parsed (String c body) rest)
  end.

Fixpoint spanDigits (acc : Z) (count : nat) (s : string) : Z * nat * string :=
  match s with
  | String c s' =>
      if isDigit c
      then spanDigits (10 * acc + Z.of_nat (nat_of_ascii c - 48)) (S count) s'
      else (acc, count, s)
  | EmptyString => (acc, count, s)
  end.

Definition signOf (s : string) : bool * string :=
  match expect "-" s with
  | Some s' => (true, s')
  | None => (false, s)
  end.

(** The integer part: a single 0, or digits. *)
Definition intPart (s : string) : Z * nat * string :=
  match expect "0" s with
  | Some s' => (0, 1%nat, s')
  | None => spanDigits 0 0 s
  end.

(** The fraction, if any, read into the mantissa; [None] when no digit
    follows the point. *)
Definition fracPart (int : Z) (s : string) : option (Z * nat * string) :=
  match expect "." s with
  | Some s' =>
      let '(m, n, rest) := spanDigits int 0 s' in
      if (n =? 0)%nat then None else Some (m, n, rest)
  | None => Some (int, 0%nat, s)
  end.

(** The exponent, if any; [None] when no digit follows the [e]. *)
Definition expPart (s : string) : option (Z * string) :=
  match (match expect "e" s with Some s' => Some s' | None => expect "E" s end)
  with
  | Some s' =>
      let '(negExp, s'') :=
        match expect "-" s' with
        | Some t => (true, t)
        | None =>
            match expect "+" s' with
            | Some t => (false, t)
            | None => (false, s')
            end
        end in
      let '(e, n, rest) := spanDigits 0 0 s'' in
      if (n =? 0)%nat then None
      else Some (if negExp then - e else e, rest)
  | None => Some (0, s)
  end.

Definition numberLiteral (s : string) : parsed json :=
  let '(neg, s1) := signOf s in
  let '(int, intDigits, s2) := intPart s1 in
  if (intDigits =? 0)%nat then SyntaxError
  else
    match fracPart int s2 with
    | None => SyntaxError
    | Some (mantissa, fracDigits, s3) =>
        match expPart s3 with
        | None => SyntaxError
        | Some (e, rest) =>
            Parsed (JNumber neg mantissa (e - Z.of_nat fracDigits)) rest
        end
    end.

Definition literal (word : string) (v : json) (s : string) : parsed json :=
  match dropPrefix word s with
  | Some rest => Parsed v rest
  | None => SyntaxError
  end.

(** A value, the elements of an array after its bracket, the members of
    an object after its brace. *)
Fixpoint value (fuel : nat) (s : string) : parsed json :=
  match fuel with
  | O => OutOfFuel
  | S fuel' =>
      match s with
      | EmptyString => SyntaxError
      | String c s' =>
          if Ascii.eqb c "n" then literal "null" JNull s
          else if Ascii.eqb c "t" then literal "true" (JBool true) s
          else if Ascii.eqb c "f" then literal "false" (JBool false) s
          else if Ascii.eqb c quoteChar then
            andThen (stringBody s') (fun raw rest => Parsed (JString raw) rest)
          else if Ascii.eqb c "[" then
            match expect "]" (skipWs s') with
            | Some rest => Parsed (JArray []) rest
            | None =>
                andThen (elements fuel' (skipWs s'))
                  (fun l rest => Parsed (JArray l) rest)
            end
          else if Ascii.eqb c "{" then
            match expect "}" (skipWs s') with
            | Some rest => Parsed (JObject []) rest
            | None =>
                andThen (members fuel' (skipWs s'))
                  (fun l rest => Parsed (JObject l) rest)
            end
          else numberLiteral s
      end
  end
with elements (fuel : nat) (s : string) : parsed (list json) :=
  match fuel with
  | O => OutOfFuel
  | S fuel' =>
      andThen (value fuel' s) (fun v rest =>
        match expect "," (skipWs rest) with
        | Some rest' =>
            andThen (elements fuel' (skipWs rest'))
              (fun l rest'' => Parsed (v :: l) rest'')
        | None =>
            match expect "]" (skipWs rest) with
            | Some rest' => Parsed [v] rest'
            | None => SyntaxError
            end
        end)
  end
with members (fuel : nat) (s : string) : parsed (list (string * json)) :=
  match fuel with
  | O => OutOfFuel
  | S fuel' =>
      match expect quoteChar s with
      | None => SyntaxError
      | Some s' =>
          andThen (stringBody s') (fun key rest =>
            match expect ":" (skipWs rest) with
            | None => SyntaxError
            | Some rest' =>
                andThen (value fuel' (skipWs rest')) (fun v rest'' =>
                  match expect "," (skipWs rest'') with
                  | Some rest3 =>
                      andThen (members fuel' (skipWs rest3))
                        (fun l rest4 => Parsed ((key, v) :: l) rest4)
                  | None =>
                      match expect "}" (skipWs rest'') with
                      | Some rest3 => Parsed [(key, v)] rest3
                      | None => SyntaxError
                      end
                  end)
            end)
      end
  end.

(** [JSON.parse(text)]: one value between optional white space. *)
Definition JSON_parse (text : string) : parsed json :=
  andThen (value (2 * String.length text + 2) (skipWs text))
    (fun v rest =>
       match skipWs rest with
       | EmptyString => Parsed v ""
       | _ => SyntaxError
       end).

(** A decimal reading that the nearest binary64 value turns into zero:
    at most half of the least positive value, [2^-1075]. *)
Definition readsAsZero (mantissa exp10 : Z) : bool :=
  (mantissa =? 0)
  || ((exp10 <? 0) && (mantissa * 2 ^ 1075 <=? 10 ^ (- exp10))).

(** The truth value [if (stored)] gives a parsed value. *)
Definition jsonTruthy (v : json) : bool :=
  match v with
  | JNull => false
  | JBool b => b
  | JNumber _ mantissa exp10 => negb (readsAsZero mantissa exp10)
  | JString raw => truthy raw
  | JArray _ | JObject _ => true
  end.

End JsonText.

(** *** The load *)

(** What the [SELECT value FROM kv WHERE key = 'appState'] statement
    reports: a failure, or the values of the rows it found. *)
Inductive QueryOutcome :=
| QueryFailed
| QueryRows (values : list string).

(** A promise is resolved with a value, or left unsettled for ever. *)
Inductive Promise (A : Type) :=
| Resolved (a : A)
| Unsettled.
Arguments Resolved {A} a.
Arguments Unsettled {A}.

(** [loadState]: [resolve] is called with [null], or with the parsed text
    once [JSON.parse] has returned; when [JSON.parse] throws inside the
    statement callback, [resolve] is never reached. *)
Definition loadState (q : QueryOutcome) : Promise json :=
  match q with
  | QueryFailed => Resolved JNull
  | QueryRows [] => Resolved JNull
  | QueryRows (stored :: _) =>
      match JSON_parse stored with
      | Parsed v _ => Resolved v
      | SyntaxError | OutOfFuel => Unsettled
      end
  end.

(** The state the provider holds: an [AppState] built by this program, or
    a parsed value adopted as it is, without a check of its shape. *)
Inductive StateValue :=
| Built (s : AppState)
| Adopted (stored : json).

Record Provider := mkProvider {
  state : StateValue;
  hydrated : bool;
}.

(** The mount effect: [useState(INITIAL_STATE)], [useState(false)], then
    the continuation of [loadState()], which runs only if the promise is
    resolved. *)
Definition mountProvider (q : QueryOutcome) : Provider :=
  match loadState q with
  | Resolved stored =>
      if jsonTruthy stored
      then {| state := Adopted stored; hydrated := true |}
      else {| state := Built seedState; hydrated := true |}
  | Unsettled => {| state := Built INITIAL_STATE; hydrated := false |}
  end.

(** ** The practice screen ([PracticeScreen.tsx]) *)

Record Config := mkConfig {
  showTime : Z;
  waitTime : Z;
  digits : Z * Z;
}.

Definition difficultyConfig (d : Difficulty) : Config :=
  match d with
  | Easy => {| showTime := 4; waitTime := 2; digits := (3, 5) |}
  | Moderate => {| showTime := 3; waitTime := 2; digits := (5, 7) |}
  | Hard => {| showTime := 2; waitTime := 1; digits := (7, 9) |}
  | Expert => {| showTime := 1; waitTime := 1; digits := (9, 12) |}
  end.

(** [value.toString().padStart(digits, '0')], where [value] is
    [Math.floor(Math.random() * 10^digits)]. *)
Definition randomNumber (digits : nat) (value : Z) : string :=
  padStart digits (toString value).

Inductive Phase := idle | show | wait | input | review.

#[global] Instance Phase_eq_dec : EqDecision Phase.
Proof. solve_decision. Defined.

(** The two callbacks [startTest] hands to [schedule]: the outer one sets
    the phase to [wait] and schedules the inner one, with the difficulty its
    closure captured; the inner one sets the phase to [input]. *)
Inductive Callback :=
| EndOfShow (captured : Difficulty)
| EndOfWait.

Record Timer := mkTimer {
  callback : Callback;
  delayMs : Z;
}.

(** *** Objects keyed by slot index ([selectedTags], [editInputs]) *)

Abbreviation SlotObject := (list (nat * string)).

Section SlotObjects.

(** [obj[index]]. *)
Fixpoint getSlot (index : nat) (obj : SlotObject) : option string :=
  match obj with
  | [] => None
  | (k, v) :: obj' => if (k =? index)%nat then Some v else getSlot index obj'
  end.

(** [{ ...obj, [index]: value }]. *)
Fixpoint setSlot (index : nat) (value : string) (obj : SlotObject)
  : SlotObject :=
  match obj with
  | [] => [(index, value)]
  | (k, v) :: obj' =>
      if (index <? k)%nat then (index, value) :: obj
      else if (index =? k)%nat then (index, value) :: obj'
      else (k, v) :: setSlot index value obj'
  end.

(** [Object.keys(obj)]: the keys as texts, in ascending numeric order. *)
Definition Object_keys (obj : SlotObject) : list string :=
  map (fun entry => toString (Z.of_nat (fst entry))) obj.

End SlotObjects.

Record Screen := mkScreen {
  appState : AppState;
  difficulty : Difficulty;
  phase : Phase;
  currentNumber : string;
  inputs : list string;
  selectedTags : SlotObject;
  editInputs : SlotObject;
  timers : list Timer;
}.

Definition initialScreen (s0 : AppState) : Screen :=
  {| appState := s0; difficulty := Easy; phase := idle; currentNumber := "";
     inputs := []; selectedTags := []; editInputs := []; timers := [] |}.

Section Practice.

(** [state.mappings[digit]?.tags.length], as a truth value, for [digit]
    one of "0" to "9": none names an inherited property, so the read finds
    an own property or nothing. *)
Definition hasTags (s : AppState) (digit : string) : bool :=
  match mappings s !! digit with
  | Some mapping => negb (length (tags mapping) =? 0)%nat
  | None => false
  end.

(** The digits "0" to "9" that have a tag. *)
Definition mappedDigits (s : AppState) : list string :=
  List.filter (hasTags s) (map (fun i => toString (Z.of_nat i)) (seq 0 10)).

Definition unlocked (st : Screen) : bool :=
  (length (mappedDigits (appState st)) =? 10)%nat.

(** [inputs[index] === currentNumber[index]]. *)
Definition slotCorrect (st : Screen) (index : nat) : bool :=
  bool_decide (inputs st !! index = charAt (currentNumber st) index).

(** [phase === 'review' &&
     Object.keys(selectedTags).length === currentNumber.length]. *)
Definition isComplete (st : Screen) : bool :=
  bool_decide (phase st = review)
  && (length (Object_keys (selectedTags st))
      =? String.length (currentNumber st))%nat.

(** [startTest], given the two random draws: [digitDraw] is
    [Math.floor(Math.random() * (maxDigits - minDigits + 1))] and [value]
    is [Math.floor(Math.random() * 10^digits)]. *)
Definition startTest (digitDraw value : Z) (st : Screen) : Screen :=
  let '(minDigits, maxDigits) := digits (difficultyConfig (difficulty st)) in
  let digits := Z.to_nat (digitDraw + minDigits) in
  {| appState := appState st; difficulty := difficulty st;
     phase := show;
     currentNumber := randomNumber digits value;
     inputs := replicate digits "";
     selectedTags := [];
     editInputs := [];
     timers :=
       timers st
         ++ [{| callback := EndOfShow (difficulty st);
                delayMs := showTime (difficultyConfig (difficulty st)) * 1000 |}] |}.

Definition setPhase (p : Phase) (st : Screen) : Screen :=
  {| appState := appState st; difficulty := difficulty st; phase := p;
     currentNumber := currentNumber st; inputs := inputs st;
     selectedTags := selectedTags st; editInputs := editInputs st;
     timers := timers st |}.

Definition setTimers (ts : list Timer) (st : Screen) : Screen :=
  {| appState := appState st; difficulty := difficulty st; phase := phase st;
     currentNumber := currentNumber st; inputs := inputs st;
     selectedTags := selectedTags st; editInputs := editInputs st;
     timers := ts |}.

Definition setAppState (s : AppState) (st : Screen) : Screen :=
  {| appState := s; difficulty := difficulty st; phase := phase st;
     currentNumber := currentNumber st; inputs := inputs st;
     selectedTags := selectedTags st; editInputs := editInputs st;
     timers := timers st |}.

Definition setSelectedTags (sel : SlotObject) (st : Screen) : Screen :=
  {| appState := appState st; difficulty := difficulty st; phase := phase st;
     currentNumber := currentNumber st; inputs := inputs st;
     selectedTags := sel; editInputs := editInputs st;
     timers := timers st |}.

(** A pending timer runs its callback. *)
Definition runCallback (c : Callback) (st : Screen) : Screen :=
  match c with
  | EndOfShow captured =>
      setTimers
        (timers st
           ++ [{| callback := EndOfWait;
                  delayMs := waitTime (difficultyConfig captured) * 1000 |}])
        (setPhase wait st)
  | EndOfWait => setPhase input st
  end.

Definition handleInputChange (value : string) (index : nat) (st : Screen)
  : Screen :=
  if negb (isDigitOrEmpty value) then st
  else
    let nextInputs := <[index := value]> (inputs st) in
    let st' :=
      {| appState := appState st; difficulty := difficulty st; phase := phase st;
         currentNumber := currentNumber st; inputs := nextInputs;
         selectedTags := selectedTags st; editInputs := editInputs st;
         timers := timers st |} in
    if forallb (fun digit => (String.length digit =? 1)%nat) nextInputs
    then setPhase review st'
    else st'.

Definition handleSelectTag (index : nat) (tagId : string) (st : Screen)
  : Screen :=
  setSelectedTags (setSlot index tagId (selectedTags st)) st.

Definition handleSaveMapping (now : Z) (index : nat) (label : string)
  (st : Screen) : Outcome Screen :=
  let numberValue := keyOf (charAt (currentNumber st) index) in
  if negb (truthy (trim label)) then Returns st
  else
    let '(tagId, updated) :=
      addTag now numberValue (trim label) (appState st) in
    match updated with
    | Returns s' =>
        if truthy tagId
        then Returns (setSelectedTags (setSlot index tagId (selectedTags st))
                        (setAppState s' st))
        else Returns (setAppState s' st)
    | TypeError => TypeError
    end.

(** The [usedTags] list [handleFinish] builds from
    [Object.entries(selectedTags)]. *)
Definition usedTagsOf (st : Screen) : list UsedTag :=
  map (fun entry =>
         {| numberValue := keyOf (charAt (currentNumber st) (fst entry));
            tagId := snd entry;
            correct := slotCorrect st (fst entry) |})
      (selectedTags st).

(** [inputs.filter((digit, index) => digit === currentNumber[index]).length]. *)
Definition correctSlots (st : Screen) : nat :=
  length (List.filter (slotCorrect st) (seq 0 (length (inputs st)))).

Definition resultOf (now : Z) (st : Screen) : TestResult :=
  {| test_id := toString now;
     date := toISOString now;
     test_difficulty := difficulty st;
     test_successRate :=
       Math_round (percentOf (Z.of_nat (correctSlots st))
                             (Z.of_nat (String.length (currentNumber st)))) |}.

Definition handleFinish (now : Z) (st : Screen) : Outcome Screen :=
  match recordTest (resultOf now st) (usedTagsOf st) (appState st) with
  | Returns s' => Returns (setPhase idle (setAppState s' st))
  | TypeError => TypeError
  end.

(** [state.mappings[numberValue]?.tags.find(item => item.id === tagId)],
    for [numberValue] a character of the number, or [undefined]: a text of
    one character or "undefined", which names no inherited property. *)
Definition findTag (s : AppState) (numberValue tagId : string) : option Tag :=
  match mappings s !! numberValue with
  | Some mapping =>
      List.find (fun item => String.eqb (tag_id item) tagId) (tags mapping)
  | None => None
  end.

(** The label one key of [selectedTags] contributes to the chosen
    string: [tag?.label || '']. *)
Definition labelOfSlot (st : Screen) (index : option nat) : string :=
  match index with
  | Some i =>
      match getSlot i (selectedTags st) with
      | Some tagId =>
          match findTag (appState st)
                  (keyOf (charAt (currentNumber st) i)) tagId with
          | Some tag => label tag
          | None => ""
          end
      | None => ""
      end
  | None => ""
  end.

(** The text after "Chosen string:". *)
Definition chosenString (st : Screen) : string :=
  join " "
    (map (fun key => labelOfSlot st (NumberOfKey key))
         (sortStrings (Object_keys (selectedTags st)))).

(** *** What the user and the timers can do *)

Inductive Event :=
| PressDifficulty (level : Difficulty)
| PressStart (digitDraw value : Z)
| TimerFires (i : nat)
| ChangeDigit (value : string) (index : nat)
| PressTag (index : nat) (tagId : string)
| ChangeEdit (value : string) (index : nat)
| PressSave (now : Z) (index : nat)
| PressFinish (now : Z)
| Elsewhere (op : StoreOp).

(** What an event leads to: the next screen; nothing, when the screen as
    rendered offers no control for it; or the end of the session, when a
    state update throws while the screen is rendered again. *)
Inductive Reaction :=
| Next (st : Screen)
| NotOffered
| Crash.

Definition react (o : Outcome Screen) : Reaction :=
  match o with
  | Returns st => Next st
  | TypeError => Crash
  end.

(** One event.  The practice controls exist only once the ten digits are
    mapped, the digit fields only in the [input] phase, the tag buttons
    only for a correct slot and only for the tags of its digit, the edit
    field and its save button only for a wrong slot, the finish button only
    when [isComplete].  Pending timers fire in any order. *)
Definition step (ev : Event) (st : Screen) : Reaction :=
  match ev with
  | PressDifficulty level =>
      if unlocked st
      then Next {| appState := appState st; difficulty := level; phase := phase st;
                   currentNumber := currentNumber st; inputs := inputs st;
                   selectedTags := selectedTags st;
                   editInputs := editInputs st; timers := timers st |}
      else NotOffered
  | PressStart digitDraw value =>
      let '(minDigits, maxDigits) :=
        digits (difficultyConfig (difficulty st)) in
      if unlocked st
         && (0 <=? digitDraw) && (digitDraw <? maxDigits - minDigits + 1)
         && (0 <=? value) && (value <? 10 ^ (digitDraw + minDigits))
      then Next (startTest digitDraw value st)
      else NotOffered
  | TimerFires i =>
      match timers st !! i with
      | Some t => Next (runCallback (callback t) (setTimers (delete i (timers st)) st))
      | None => NotOffered
      end
  | ChangeDigit value index =>
      if unlocked st && bool_decide (phase st = input)
         && (index <? length (inputs st))%nat
      then Next (handleInputChange value index st)
      else NotOffered
  | PressTag index tagId =>
      if unlocked st && bool_decide (phase st = review)
         && (index <? length (inputs st))%nat
         && slotCorrect st index
         && bool_decide
              (is_Some (findTag (appState st)
                          (keyOf (charAt (currentNumber st) index)) tagId))
      then Next (handleSelectTag index tagId st)
      else NotOffered
  | ChangeEdit value index =>
      if unlocked st && bool_decide (phase st = review)
         && (index <? length (inputs st))%nat
         && negb (slotCorrect st index)
      then Next {| appState := appState st; difficulty := difficulty st;
                   phase := phase st; currentNumber := currentNumber st;
                   inputs := inputs st; selectedTags := selectedTags st;
                   editInputs := setSlot index value (editInputs st);
                   timers := timers st |}
      else NotOffered
  | PressSave now index =>
      if unlocked st && bool_decide (phase st = review)
         && (index <? length (inputs st))%nat
         && negb (slotCorrect st index)
      then react (handleSaveMapping now index
                    (default "" (getSlot index (editInputs st))) st)
      else NotOffered
  | PressFinish now =>
      if unlocked st && isComplete st
      then react (handleFinish now st)
      else NotOffered
  | Elsewhere op =>
      match applyOp op (appState st) with
      | Returns s' => Next (setAppState s' st)
      | TypeError => Crash
      end
  end.

(** The screen after the events, if each has a next screen. *)
Fixpoint run (events : list Event) (st : Screen) : option Screen :=
  match events with
  | [] => Some st
  | ev :: events' =>
      match step ev st with
      | Next st' => run events' st'
      | NotOffered | Crash => None
      end
  end.

(** The screens a session can be in, from a provider holding [s0]. *)
Inductive reachable (s0 : AppState) : Screen -> Prop :=
| reachable_init : reachable s0 (initialScreen s0)
| reachable_step ev st st' :
    reachable s0 st -> step ev st = Next st' -> reachable s0 st'.

End Practice.
(** * The vocabulary of the properties *)

(** ** Texts of numbers *)

(** The number a text of decimal digits stands for, read after [acc]. *)
Fixpoint readDigits (acc : Z) (s : string) : Z :=
  match s with
  | EmptyString => acc
  | String c s' => readDigits (10 * acc + (Z.of_nat (nat_of_ascii c) - 48)) s'
  end.

(** A text of decimal digits. *)
Fixpoint allDigits (s : string) : bool :=
  match s with
  | EmptyString => true
  | String c s' => isDigit c && allDigits s'
  end.

(** A parser run that answered, and left less than [n] characters if it
    accepted. *)
Definition progress {A} (n : nat) (p : parsed A) : Prop :=
  match p with
  | Parsed _ rest => (String.length rest < n)%nat
  | SyntaxError => True
  | OutOfFuel => False
  end.

(** A text between double quotes. *)
Definition quoted (s : string) : string :=
  String quoteChar (s +:+ String quoteChar "").

(** ** Numbers *)

(** The largest value a counter reaches: 2^53 + 1 is no binary64 value,
    and the sum of 2^53 and 1 is 2^53. *)
Definition maxCounter : Z := 2 ^ 53.

(** [q * 2^k]. *)
Definition shiftPos (k : nat) (q : positive) : positive := Nat.iter k xO q.

(** The integer a binary64 value is, if it is one. *)
Definition asInteger (x : spec_float) : option Z :=
  match x with
  | S754_zero _ => Some 0
  | S754_finite s m e =>
      let n := if s then Z.neg m else Z.pos m in
      if 0 <=? e then Some (n * 2 ^ e)
      else if n mod 2 ^ (- e) =? 0 then Some (n / 2 ^ (- e)) else None
  | S754_infinity _ | S754_nan => None
  end.

(** [100 * a / b] rounded to the nearest integer, half up, in exact
    arithmetic; and whether [100 * a / b] lies half way between two
    integers. *)
Definition exactPercent (a b : Z) : Z := (200 * a + b) / (2 * b).

Definition halfWay (a b : Z) : bool := (200 * a) mod (2 * b) =? b.

(** The check that a rate is the exact percentage rounded half up, or
    one less where the percentage lies half way; and the check for all the
    counters [0 <= a <= b] with [0 < b <= bound]. *)
Definition rateOk (a b : Z) : bool :=
  match asInteger (Math_round (percentOf a b)) with
  | Some r =>
      (r =? exactPercent a b) || (halfWay a b && (r =? exactPercent a b - 1))
  | None => false
  end.

Fixpoint allFrom (fuel : nat) (z : Z) (f : Z -> bool) : bool :=
  match fuel with
  | O => true
  | S fuel' => f z && allFrom fuel' (z + 1) f
  end.

Definition rateTable (bound : Z) : bool :=
  allFrom (Z.to_nat bound) 1
    (fun b => allFrom (Z.to_nat (b + 1)) 0 (fun a => rateOk a b)).


(** ** The store *)

(** An entry of [usedTags] names the tag [tagId] of the mapping [k]. *)
Definition names (k id : string) (u : UsedTag) : bool :=
  String.eqb (numberValue u) k && String.eqb (tagId u) id.

Definition hitCount (k id : string) (us : list UsedTag) : Z :=
  Z.of_nat (length (List.filter (names k id) us)).

Definition correctHitCount (k id : string) (us : list UsedTag) : Z :=
  Z.of_nat (length (List.filter (fun u => names k id u && correct u) us)).

(** A tag of mapping [k] after every entry of [us] naming it was
    counted, for counters from 0 to 2^53. *)
Definition credited (k : string) (us : list UsedTag) (tag : Tag) : Tag :=
  {| tag_id := tag_id tag; label := label tag;
     usageCount :=
       Z.min (usageCount tag + hitCount k (tag_id tag) us) maxCounter;
     successCount :=
       Z.min (successCount tag + correctHitCount k (tag_id tag) us)
             maxCounter |}.

(** Counters that are counts: integers from 0 to 2^53. *)
Definition inRange (tag : Tag) : Prop :=
  0 <= successCount tag <= maxCounter /\ 0 <= usageCount tag <= maxCounter.

Definition countersInRange (M : gmap string NumberMapping) : Prop :=
  forall k mapping, M !! k = Some mapping -> Forall inRange (tags mapping).

(** No entry names a property the mappings only inherit. *)
Definition ownNames (M : gmap string NumberMapping) (us : list UsedTag)
  : Prop :=
  Forall (fun u => getProperty M (numberValue u) <> Inherited) us.

(** The invariant of the counters. *)
Definition tagOk (tag : Tag) : Prop :=
  0 <= successCount tag <= usageCount tag /\ usageCount tag <= maxCounter.

Definition countersOk (M : gmap string NumberMapping) : Prop :=
  forall k mapping, M !! k = Some mapping -> Forall tagOk (tags mapping).

(** The state an update that returned gives, and whether it returned. *)
Definition orElse {A} (o : Outcome A) (a : A) : A :=
  match o with
  | Returns x => x
  | TypeError => a
  end.

Definition returned {A} (o : Outcome A) : bool :=
  match o with
  | Returns _ => true
  | TypeError => false
  end.

(** The mapping a key has after an update, if the update returned. *)
Definition mappingAfter (o : Outcome AppState) (k : string)
  : option NumberMapping :=
  match o with
  | Returns s => mappings s !! k
  | TypeError => None
  end.

(** ** The recent-activity count *)

(** The test is stamped later than [now]. *)
Definition laterThan (parseTime : string -> option Z) (now : Z)
  (test : TestResult) : bool :=
  match parseTime (date test) with
  | Some t => now <? t
  | None => false
  end.

Definition laterCount (parseTime : string -> option Z) (now : Z)
  (tests : list TestResult) : nat :=
  length (List.filter (laterThan parseTime now) tests).

Definition testAt (text : string) : TestResult :=
  {| test_id := "1"; date := text; test_difficulty := Easy;
     test_successRate := Number 100 |}.

(** ** The load *)

(** The provider once the seed was adopted, and the provider no load ever
    reached. *)
Definition seeded : Provider :=
  {| state := Built seedState; hydrated := true |}.

Definition stuck : Provider :=
  {| state := Built INITIAL_STATE; hydrated := false |}.

(** ** The session *)

Definition slotKeys (obj : SlotObject) : list nat := map fst obj.

(** What every reachable screen satisfies: one input slot per digit of the
    target, and selections kept under ascending slot indices, each the index
    of a slot. *)
Record wellFormed (st : Screen) : Prop := mkWellFormed {
  wf_length : String.length (currentNumber st) = length (inputs st);
  wf_sorted : StronglySorted lt (slotKeys (selectedTags st));
  wf_bound : Forall (fun k => (k < length (inputs st))%nat)
               (slotKeys (selectedTags st));
}.

(** The digit of slot [i], as the key the store is read with. *)
Definition digitAt (st : Screen) (i : nat) : string :=
  keyOf (charAt (currentNumber st) i).

(** What every reachable screen satisfies besides: the number is made of
    digits, and every selection names a tag the mapping of the digit of its
    slot has. *)
Record sessionOk (st : Screen) : Prop := mkSessionOk {
  ok_digits : allDigits (currentNumber st) = true;
  ok_selected :
    Forall (fun entry =>
              is_Some (findTag (appState st) (digitAt st (fst entry))
                         (snd entry)))
           (selectedTags st);
}.

(** The tag has room for [n] more uses. *)
Definition roomFor (n : nat) (tag : Tag) : Prop :=
  0 <= successCount tag <= usageCount tag
  /\ usageCount tag + Z.of_nat n <= maxCounter.

(** The label the entry [(index, tagId)] of [selectedTags] stands for. *)
Definition labelOfEntry (st : Screen) (entry : nat * string) : string :=
  match findTag (appState st)
          (keyOf (charAt (currentNumber st) (fst entry))) (snd entry) with
  | Some tag => label tag
  | None => ""
  end.

(** Keys as [Object.keys] spells them, and the order [sort] compares
    them in. *)
Definition keyText (k : nat) : string := toString (Z.of_nat k).

Definition textLe (a b : string) : Prop := String.leb a b = true.

(** * Sample data *)

(** A store after one test in which the tag "7-1000" was named twice, once
    with a correct answer. *)
Definition sampleResult : TestResult :=
  {| test_id := "9000"; date := toISOString 9000;
     test_difficulty := Easy; test_successRate := Number 50 |}.

Definition twoUses : list UsedTag :=
  [ {| numberValue := "7"; tagId := "7-1000"; correct := true |};
    {| numberValue := "7"; tagId := "7-1000"; correct := false |} ].

Definition taggedStore : AppState :=
  orElse (applyOp (OpAddTag 1000 "7" "axe") seedState) seedState.

Definition sampleStore : AppState :=
  orElse (applyOp (OpRecordTest sampleResult twoUses) taggedStore) seedState.

Definition sampleTag : Tag :=
  {| tag_id := "7-1000"; label := "axe"; usageCount := 2; successCount := 1 |}.

(** The seeded store with one tag of the number 7 whose counters are
    given. *)
Definition storeWithCounters (usage successes : Z) : AppState :=
  setMappings seedState
    (<["7" := {| mapping_id := "7"; number := "7";
                 tags := [ {| tag_id := "7-1000"; label := "axe";
                              usageCount := usage;
                              successCount := successes |} ] |}]>
       hydrateMappings).



(** Ten words, one for each digit. *)
Definition digitWords : list string :=
  ["zoo"; "tie"; "noah"; "ma"; "rye"; "law"; "shoe"; "cow"; "ivy"; "bee"].

(** On the number map screen every digit gets one tag; the tag of digit
    [d] is added at time [1000 + d], so its id is [d-100d]. *)
Definition mapTenDigits : list Event :=
  imap (fun i word =>
          Elsewhere (OpAddTag (1000 + Z.of_nat i) (toString (Z.of_nat i)) word))
       digitWords.

(** An Easy test on "042", answered "043"; the first two slots get their
    tag, a label is saved for the wrong third slot. *)
Definition wrongDigitStart : list Event :=
  mapTenDigits
    ++ [ PressStart 0 42; TimerFires 0; TimerFires 0;
         ChangeDigit "0" 0; ChangeDigit "4" 1; ChangeDigit "3" 2;
         PressTag 0 "0-1000"; PressTag 1 "4-1004";
         ChangeEdit "inn" 2 ].

Definition wrongDigitSession : list Event :=
  wrongDigitStart ++ [PressSave 5000 2].

(** An Expert test on the eleven digits "01234567890", answered without a
    fault; the slots 2 and 10 get their tag. *)
Definition elevenDigitSession : list Event :=
  mapTenDigits
    ++ [ PressDifficulty Expert; PressStart 2 1234567890;
         TimerFires 0; TimerFires 0 ]
    ++ imap (fun i digit => ChangeDigit digit i)
         ["0"; "1"; "2"; "3"; "4"; "5"; "6"; "7"; "8"; "9"; "0"]
    ++ [ PressTag 2 "2-1002"; PressTag 10 "0-1000" ].

(** The screen after the events, from the seeded store. *)
Definition screenAfter (events : list Event) : Screen :=
  default (initialScreen seedState) (run events (initialScreen seedState)).

Definition wrongDigitScreen : Screen := screenAfter wrongDigitSession.
Definition elevenDigitScreen : Screen := screenAfter elevenDigitSession.

(** The events are all offered, one after the other. *)
Definition offered (events : list Event) : bool :=
  match run events (initialScreen seedState) with
  | Some _ => true
  | None => false
  end.

(** * Properties *)

(** A conjunction of closed facts, each by evaluation. *)
Ltac by_computation :=
  repeat match goal with |- _ /\ _ => split end; vm_compute; reflexivity.

(** ** The platform functions on known values *)

Section PlatformChecks.

Example toString_values :
  toString 0 = "0" /\ toString 1704067200000 = "1704067200000"
  /\ toString (-42) = "-42" /\ padStart 3 (toString 42) = "042"
  /\ padStart 2 (toString 123) = "123".
Proof. by_computation. Qed.

(** U+00A0 is the two bytes 194 160, U+3000 the three bytes 227 128 128;
    the two bytes of U+00E0 end in 160 and are no white space. *)
Example trim_values :
  trim "  old shoe " = "old shoe" /\ trim "   " = "" /\ trim "" = ""
  /\ trim (String (ascii_of_nat 194) (String (ascii_of_nat 160) "")) = ""
  /\ trim (String (ascii_of_nat 227) (String (ascii_of_nat 128)
             (String (ascii_of_nat 128) "inn "))) = "inn"
  /\ trim (String (ascii_of_nat 195) (String (ascii_of_nat 160) ""))
     = String (ascii_of_nat 195) (String (ascii_of_nat 160) "").
Proof. by_computation. Qed.

Example getProperty_values :
  getProperty hydrateMappings "7" = Own (emptyMapping "7")
  /\ getProperty hydrateMappings "1234" = Undefined
  /\ getProperty hydrateMappings "undefined" = Undefined
  /\ getProperty hydrateMappings "constructor" = Inherited
  /\ getProperty hydrateMappings "__proto__" = Inherited.
Proof. by_computation. Qed.

Example plus_values :
  plus 0 1 = 1 /\ plus 41 1 = 42 /\ plus 41 0 = 41
  /\ plus (2 ^ 53 - 1) 1 = 2 ^ 53 /\ plus (2 ^ 53) 1 = 2 ^ 53.
Proof. by_computation. Qed.

Example sortStrings_values :
  sortStrings ["0"; "1"; "2"; "10"; "11"] = ["0"; "1"; "10"; "11"; "2"]
  /\ NumberOfKey "11" = Some 11%nat /\ NumberOfKey "" = None.
Proof. by_computation. Qed.

Example toISOString_values :
  toISOString 0 = "1970-01-01T00:00:00.000Z"
  /\ toISOString (-1) = "1969-12-31T23:59:59.999Z"
  /\ toISOString 951782400000 = "2000-02-29T00:00:00.000Z"
  /\ toISOString 1704067200000 = "2024-01-01T00:00:00.000Z"
  /\ toISOString (-62167219200000) = "0000-01-01T00:00:00.000Z"
  /\ toISOString 253402300800000 = "+010000-01-01T00:00:00.000Z".
Proof. by_computation. Qed.

Example getTime_values :
  getTime "1970-01-01T00:00:00.000Z" = Some 0
  /\ getTime "2000-02-29T00:00:00.000Z" = Some 951782400000
  /\ getTime (toISOString 1704153600001) = Some 1704153600001
  /\ getTime "2023-02-29T00:00:00.000Z" = None
  /\ getTime "yesterday" = None.
Proof. by_computation. Qed.

Example JSON_parse_values :
  JSON_parse " [1, -2.5e-3, true, null, {}] "
  = Parsed (JArray [JNumber false 1 0; JNumber true 25 (-4); JBool true;
                    JNull; JObject []]) ""
  /\ JSON_parse ("{" +:+ quoted "mappings" +:+ ":{}," +:+ quoted "tests"
                   +:+ ":[]}")
     = Parsed (JObject [("mappings", JObject []); ("tests", JArray [])]) ""
  /\ JSON_parse "null" = Parsed JNull ""
  /\ JSON_parse "" = SyntaxError
  /\ JSON_parse "[1,]" = SyntaxError
  /\ JSON_parse "01" = SyntaxError
  /\ JSON_parse "{} {}" = SyntaxError.
Proof. by_computation. Qed.

Example jsonTruthy_values :
  jsonTruthy JNull = false /\ jsonTruthy (JNumber true 0 0) = false
  /\ jsonTruthy (JNumber false 2 (-324)) = false
  /\ jsonTruthy (JNumber false 3 (-324)) = true
  /\ jsonTruthy (JString "") = false /\ jsonTruthy (JObject []) = true.
Proof. by_computation. Qed.

Example Math_round_values :
  Math_round (fdiv (Number 5) (Number 2)) = Number 3
  /\ Math_round (fdiv (Number (-5)) (Number 2)) = Number (-2)
  /\ Math_round (fdiv (Number 1) (Number 3)) = Number 0
  /\ Math_round (fdiv (Number (-1)) (Number 2)) = S754_zero true
  /\ Math_round (Number 7) = Number 7.
Proof. by_computation. Qed.

End PlatformChecks.

(** ** Texts of numbers *)

Section TextLemmas.

Lemma length_append (a b : string) :
  String.length (a +:+ b) = (String.length a + String.length b)%nat.
Proof. induction a as [|c a IH]; simpl; [reflexivity | now rewrite IH]. Qed.

Lemma length_repeatChar c n : String.length (repeatChar c n) = n.
Proof. induction n as [|n IH]; simpl; [reflexivity | now rewrite IH]. Qed.

Lemma length_padStart n s :
  (String.length s <= n)%nat -> String.length (padStart n s) = n.
Proof.
  intros Hle. unfold padStart.
  rewrite length_append, length_repeatChar. lia.
Qed.

(** A number below [10^k] is written with [k] digits at most. *)
Lemma length_digitsOf fuel : forall n acc (k : nat),
  (1 <= k)%nat -> 0 <= n < 10 ^ Z.of_nat k ->
  (String.length (digitsOf fuel n acc) <= k + String.length acc)%nat.
Proof.
  induction fuel as [|fuel IH]; intros n acc k Hk Hn; simpl.
  - lia.
  - destruct (Z.eqb_spec (n / 10) 0) as [Hz|Hnz]; simpl; [lia|].
    destruct k as [|[|k]]; [lia | |].
    + exfalso. apply Hnz. apply Z.div_small. simpl in Hn. lia.
    + specialize (IH (n / 10) (String (digitChar (n mod 10)) acc) (S k)).
      simpl String.length in IH.
      assert (Hq : 0 <= n / 10 < 10 ^ Z.of_nat (S k)).
      { split; [apply Z.div_pos; lia|].
        apply Z.div_lt_upper_bound; [lia|].
        replace (Z.of_nat (S (S k))) with (Z.succ (Z.of_nat (S k))) in Hn
          by lia.
        rewrite Z.pow_succ_r in Hn by lia. lia. }
      specialize (IH ltac:(lia) Hq). lia.
Qed.

Lemma length_toString n (k : nat) :
  (1 <= k)%nat -> 0 <= n < 10 ^ Z.of_nat k ->
  (String.length (toString n) <= k)%nat.
Proof.
  intros Hk Hn. unfold toString.
  destruct (Z.ltb_spec n 0) as [Hneg|_]; [lia|].
  pose proof (length_digitsOf (Z.to_nat (Z.log2 n)) n "" k Hk Hn) as H.
  simpl in H. lia.
Qed.

Lemma length_randomNumber (d : nat) value :
  (1 <= d)%nat -> 0 <= value < 10 ^ Z.of_nat d ->
  String.length (randomNumber d value) = d.
Proof.
  intros Hd Hv. unfold randomNumber.
  apply length_padStart. now apply length_toString.
Qed.

Lemma digitChar_value d :
  0 <= d < 10 -> Z.of_nat (nat_of_ascii (digitChar d)) - 48 = d.
Proof.
  intros Hd. unfold digitChar. rewrite nat_ascii_embedding; lia.
Qed.

Lemma digitsOf_read fuel : forall n acc,
  0 <= n < 2 ^ (Z.of_nat fuel + 1) ->
  readDigits 0 (digitsOf fuel n acc) = readDigits n acc.
Proof.
  assert (Hlast : forall n acc,
            0 <= n -> n / 10 = 0 ->
            readDigits 0 (String (digitChar (n mod 10)) acc)
            = readDigits n acc).
  { intros n acc Hn Hq. simpl.
    rewrite digitChar_value by (apply Z.mod_pos_bound; lia).
    f_equal. pose proof (Z.div_mod n 10 ltac:(lia)). lia. }
  induction fuel as [|fuel IH]; intros n acc Hn; simpl.
  - apply Hlast; [lia|]. apply Z.div_small. simpl in Hn. lia.
  - destruct (Z.eqb_spec (n / 10) 0) as [Hz|Hnz]; [apply Hlast; lia|].
    rewrite IH.
    + simpl. rewrite digitChar_value by (apply Z.mod_pos_bound; lia).
      f_equal. pose proof (Z.div_mod n 10 ltac:(lia)). lia.
    + split; [apply Z.div_pos; lia|].
      apply Z.div_lt_upper_bound; [lia|].
      replace (Z.of_nat (S fuel) + 1) with (Z.succ (Z.of_nat fuel + 1)) in Hn
        by lia.
      rewrite Z.pow_succ_r in Hn by lia. lia.
Qed.

(** [toString] writes the number: reading its digits gives it back. *)
Lemma toString_read n : 0 <= n -> readDigits 0 (toString n) = n.
Proof.
  intros Hn. unfold toString.
  destruct (Z.ltb_spec n 0) as [Hneg|_]; [lia|].
  rewrite digitsOf_read; [reflexivity|].
  split; [exact Hn|].
  destruct (Z.eq_dec n 0) as [->|Hpos]; [reflexivity|].
  rewrite Z2Nat.id by apply Z.log2_nonneg.
  replace (Z.log2 n + 1) with (Z.succ (Z.log2 n)) by lia.
  apply Z.log2_spec. lia.
Qed.

(** The identifier [addTag] returns is never the empty text. *)
Lemma nextIdOf_truthy now numberValue :
  truthy (nextIdOf now numberValue) = true.
Proof.
  unfold nextIdOf. induction numberValue as [|c s IH]; reflexivity.
Qed.

Lemma isDigit_digitChar d : 0 <= d < 10 -> isDigit (digitChar d) = true.
Proof.
  intros Hd. unfold isDigit, digitChar.
  rewrite nat_ascii_embedding by lia.
  apply andb_true_intro. split; apply Nat.leb_le; lia.
Qed.

Lemma allDigits_digitsOf fuel : forall n acc,
  0 <= n -> allDigits acc = true -> allDigits (digitsOf fuel n acc) = true.
Proof.
  induction fuel as [|fuel IH]; intros n acc Hn Hacc;
    cbn [digitsOf allDigits].
  - rewrite isDigit_digitChar by (apply Z.mod_pos_bound; lia). exact Hacc.
  - assert (Hstep : allDigits (String (digitChar (n mod 10)) acc) = true).
    { cbn [allDigits].
      rewrite isDigit_digitChar by (apply Z.mod_pos_bound; lia). exact Hacc. }
    destruct (n / 10 =? 0); [exact Hstep|].
    apply IH; [apply Z.div_pos; lia | exact Hstep].
Qed.

Lemma allDigits_toString n : 0 <= n -> allDigits (toString n) = true.
Proof.
  intros Hn. unfold toString.
  destruct (Z.ltb_spec n 0) as [Hneg|_]; [lia|].
  now apply allDigits_digitsOf.
Qed.

Lemma allDigits_append a b :
  allDigits (a +:+ b) = allDigits a && allDigits b.
Proof.
  induction a as [|c a IH]; simpl; [reflexivity|].
  now rewrite IH, Bool.andb_assoc.
Qed.

Lemma allDigits_zeros n : allDigits (repeatChar "0" n) = true.
Proof. induction n as [|n IH]; [reflexivity | exact IH]. Qed.

Lemma allDigits_randomNumber (d : nat) value :
  0 <= value -> allDigits (randomNumber d value) = true.
Proof.
  intros Hv. unfold randomNumber, padStart.
  now rewrite allDigits_append, allDigits_zeros, allDigits_toString.
Qed.

(** A digit is the text of a number below ten. *)
Lemma digit_toString c :
  isDigit c = true ->
  exists d : nat, (d < 10)%nat /\ String c "" = toString (Z.of_nat d).
Proof.
  unfold isDigit. intros H. apply andb_prop in H as [Hlo Hhi].
  apply Nat.leb_le in Hlo, Hhi.
  exists (nat_of_ascii c - 48)%nat. split; [lia|].
  rewrite <- (ascii_nat_embedding c) at 1.
  assert (Hcases : In (nat_of_ascii c) (seq 48 10))
    by (apply in_seq; lia).
  repeat (destruct Hcases as [<-|Hcases]; [reflexivity|]).
  destruct Hcases.
Qed.

Lemma allDigits_charAt s : forall i c,
  allDigits s = true -> String.get i s = Some c -> isDigit c = true.
Proof.
  induction s as [|a s IH]; intros i c Hs Hi; [discriminate|].
  cbn [allDigits] in Hs. apply andb_prop in Hs as [Ha Hs].
  destruct i as [|i]; simpl in Hi.
  - now injection Hi as <-.
  - now apply (IH i).
Qed.

Lemma get_lt s : forall i, (i < String.length s)%nat -> is_Some (String.get i s).
Proof.
  induction s as [|a s IH]; intros i Hi; simpl in Hi; [lia|].
  destruct i as [|i]; simpl; [now exists a|]. apply IH. lia.
Qed.

End TextLemmas.

(** ** [JSON.parse] always answers *)

Section JsonLemmas.

Lemma progress_andThen {A B} (n m : nat) (p : parsed A)
  (k : A -> string -> parsed B) :
  progress n p ->
  (forall a rest, (String.length rest < n)%nat -> progress m (k a rest)) ->
  progress m (andThen p k).
Proof. destruct p; simpl; auto. Qed.

Lemma expect_length c s rest :
  expect c s = Some rest -> String.length s = S (String.length rest).
Proof.
  destruct s as [|c' s']; simpl; [discriminate|].
  destruct (Ascii.eqb c c'); [|discriminate]. now intros [= ->].
Qed.

Lemma skipWs_length s : (String.length (skipWs s) <= String.length s)%nat.
Proof.
  induction s as [|c s IH]; simpl; [lia|].
  destruct (isJsonSpace c); simpl; lia.
Qed.

Lemma dropPrefix_length prefix : forall s rest,
  dropPrefix prefix s = Some rest ->
  String.length s = (String.length prefix + String.length rest)%nat.
Proof.
  induction prefix as [|a prefix IH]; intros s rest; simpl.
  - now intros [= ->].
  - destruct s as [|b s]; [discriminate|].
    destruct (Ascii.eqb a b); [|discriminate].
    intros H. simpl. now rewrite (IH _ _ H).
Qed.

Lemma spanDigits_length s : forall acc count v n rest,
  spanDigits acc count s = (v, n, rest) ->
  (String.length rest + n = String.length s + count)%nat.
Proof.
  induction s as [|c s IH]; intros acc count v n rest; simpl.
  - intros [= _ <- <-]. reflexivity.
  - destruct (isDigit c).
    + intros H. apply IH in H. lia.
    + intros [= _ <- <-]. reflexivity.
Qed.

Lemma stringBody_progress n : forall s,
  (String.length s <= n)%nat -> progress (String.length s) (stringBody s).
Proof.
  induction n as [|n IH]; intros [|c s'] Hn; simpl in *; try exact I; [lia|].
  destruct (Ascii.eqb c quoteChar); [simpl; lia|].
  destruct (Ascii.eqb c "\").
  - destruct s' as [|e s'']; [exact I|].
    destruct (isEscape e || _); [|exact I].
    apply (progress_andThen (String.length s'')).
    + apply IH. simpl in Hn. lia.
    + intros body rest Hrest. simpl. lia.
  - destruct (nat_of_ascii c <? 32)%nat; [exact I|].
    apply (progress_andThen (String.length s')).
    + apply IH. lia.
    + intros body rest Hrest. simpl. lia.
Qed.

Lemma numberLiteral_progress s : progress (String.length s) (numberLiteral s).
Proof.
  unfold numberLiteral.
  destruct (signOf s) as [neg s1] eqn:Hsign.
  assert (H1 : (String.length s1 <= String.length s)%nat).
  { unfold signOf in Hsign. destruct (expect "-" s) as [t|] eqn:He.
    - injection Hsign as _ <-. apply expect_length in He. lia.
    - injection Hsign as _ <-. lia. }
  destruct (intPart s1) as [[int intDigits] s2] eqn:Hint.
  assert (H2 : (String.length s2 + intDigits = String.length s1)%nat).
  { unfold intPart in Hint. destruct (expect "0" s1) as [t|] eqn:He.
    - injection Hint as _ <- <-. apply expect_length in He. lia.
    - apply spanDigits_length in Hint. lia. }
  destruct (Nat.eqb_spec intDigits 0) as [_|Hpos]; [exact I|].
  destruct (fracPart int s2) as [[[mantissa fracDigits] s3]|] eqn:Hfrac;
    [|exact I].
  assert (H3 : (String.length s3 <= String.length s2)%nat).
  { unfold fracPart in Hfrac. destruct (expect "." s2) as [t|] eqn:He.
    - destruct (spanDigits int 0 t) as [[m n] rest] eqn:Hspan.
      destruct (n =? 0)%nat; [discriminate|].
      injection Hfrac as _ _ <-.
      apply spanDigits_length in Hspan. apply expect_length in He. lia.
    - injection Hfrac as _ _ <-. lia. }
  destruct (expPart s3) as [[e rest]|] eqn:Hexp; [|exact I].
  assert (H4 : (String.length rest <= String.length s3)%nat).
  { unfold expPart in Hexp.
    destruct (match expect "e" s3 with
              | Some s' => Some s'
              | None => expect "E" s3
              end) as [s'|] eqn:Hmark.
    - assert (Hs' : (String.length s' < String.length s3)%nat).
      { destruct (expect "e" s3) as [t|] eqn:He.
        - injection Hmark as <-. apply expect_length in He. lia.
        - apply expect_length in Hmark. lia. }
      destruct (match expect "-" s' with
                | Some t => (true, t)
                | None =>
                    match expect "+" s' with
                    | Some t => (false, t)
                    | None => (false, s')
                    end
                end) as [negExp s''] eqn:Hsg.
      assert (Hs'' : (String.length s'' <= String.length s')%nat).
      { destruct (expect "-" s') as [t|] eqn:He1.
        - injection Hsg as _ <-. apply expect_length in He1. lia.
        - destruct (expect "+" s') as [t|] eqn:He2.
          + injection Hsg as _ <-. apply expect_length in He2. lia.
          + injection Hsg as _ <-. lia. }
      destruct (spanDigits 0 0 s'') as [[e' n] rest'] eqn:Hspan.
      destruct (n =? 0)%nat; [discriminate|].
      injection Hexp as _ <-. apply spanDigits_length in Hspan. lia.
    - injection Hexp as _ <-. lia. }
  simpl. lia.
Qed.

Lemma literal_progress word v s :
  (0 < String.length word)%nat -> progress (String.length s) (literal word v s).
Proof.
  intros Hword. unfold literal.
  destruct (dropPrefix word s) as [rest|] eqn:Hd; [|exact I].
  apply dropPrefix_length in Hd. simpl. lia.
Qed.

(** Two units of fuel for each character are enough. *)
Lemma parse_progress fuel :
  (forall s, (2 * String.length s + 1 <= fuel)%nat ->
             progress (String.length s) (value fuel s))
  /\ (forall s, (2 * String.length s + 2 <= fuel)%nat ->
                progress (String.length s) (elements fuel s))
  /\ (forall s, (2 * String.length s + 2 <= fuel)%nat ->
                progress (String.length s) (members fuel s)).
Proof.
  induction fuel as [|fuel (IHv & IHe & IHm)];
    [repeat split; intros s Hs; lia|].
  repeat split; intros s Hfuel.
  - destruct s as [|c s']; [exact I|]. cbn [value].
    pose proof (skipWs_length s') as Hws.
    simpl String.length in *.
    destruct (Ascii.eqb c "n");
      [apply (literal_progress _ _ (String c s')); simpl; lia|].
    destruct (Ascii.eqb c "t");
      [apply (literal_progress _ _ (String c s')); simpl; lia|].
    destruct (Ascii.eqb c "f");
      [apply (literal_progress _ _ (String c s')); simpl; lia|].
    destruct (Ascii.eqb c quoteChar).
    { apply (progress_andThen (String.length s'));
        [apply (stringBody_progress (String.length s')); lia|].
      intros raw rest Hrest. simpl. lia. }
    destruct (Ascii.eqb c "[").
    { destruct (expect "]" (skipWs s')) as [rest|] eqn:He.
      - apply expect_length in He. simpl. lia.
      - apply (progress_andThen (String.length (skipWs s')));
          [apply IHe; lia|].
        intros l rest Hrest. simpl. lia. }
    destruct (Ascii.eqb c "{").
    { destruct (expect "}" (skipWs s')) as [rest|] eqn:He.
      - apply expect_length in He. simpl. lia.
      - apply (progress_andThen (String.length (skipWs s')));
          [apply IHm; lia|].
        intros l rest Hrest. simpl. lia. }
    apply (numberLiteral_progress (String c s')).
  - cbn [elements].
    apply (progress_andThen (String.length s)); [apply IHv; lia|].
    intros v rest Hrest. pose proof (skipWs_length rest) as Hws.
    destruct (expect "," (skipWs rest)) as [rest'|] eqn:He.
    + apply expect_length in He. pose proof (skipWs_length rest') as Hws'.
      apply (progress_andThen (String.length (skipWs rest')));
        [apply IHe; lia|].
      intros l rest'' Hrest''. simpl. lia.
    + destruct (expect "]" (skipWs rest)) as [rest'|] eqn:He2; [|exact I].
      apply expect_length in He2. simpl. lia.
  - cbn [members].
    destruct (expect quoteChar s) as [s'|] eqn:Hq; [|exact I].
    apply expect_length in Hq.
    apply (progress_andThen (String.length s'));
      [apply (stringBody_progress (String.length s')); lia|].
    intros key rest Hrest. pose proof (skipWs_length rest) as Hws.
    destruct (expect ":" (skipWs rest)) as [rest'|] eqn:Hc; [|exact I].
    apply expect_length in Hc. pose proof (skipWs_length rest') as Hws'.
    apply (progress_andThen (String.length (skipWs rest')));
      [apply IHv; lia|].
    intros v rest'' Hrest''. pose proof (skipWs_length rest'') as Hws''.
    destruct (expect "," (skipWs rest'')) as [rest3|] eqn:He.
    + apply expect_length in He. pose proof (skipWs_length rest3) as Hws3.
      apply (progress_andThen (String.length (skipWs rest3)));
        [apply IHm; lia|].
      intros l rest4 Hrest4. simpl. lia.
    + destruct (expect "}" (skipWs rest'')) as [rest3|] eqn:He2; [|exact I].
      apply expect_length in He2. simpl. lia.
Qed.

(** [JSON.parse] returns a value or throws. *)
Lemma JSON_parse_answers text :
  JSON_parse text = SyntaxError
  \/ exists v, JSON_parse text = Parsed v "".
Proof.
  unfold JSON_parse.
  pose proof (proj1 (parse_progress (2 * String.length text + 2))
                (skipWs text)) as Hv.
  pose proof (skipWs_length text) as Hws.
  specialize (Hv ltac:(lia)).
  destruct (value _ _) as [v rest| |]; simpl in *; [|now left|contradiction].
  destruct (skipWs rest); [right; now exists v | now left].
Qed.

End JsonLemmas.

(** ** Counters: binary64 sums of integers up to 2^53 *)

Section Binary64.

Lemma shiftPos_value k q : Z.pos (shiftPos k q) = Z.pos q * 2 ^ Z.of_nat k.
Proof.
  induction k as [|k IH]; [simpl; lia|].
  unfold shiftPos in *. rewrite Nat.iter_succ.
  rewrite Pos2Z.inj_xO, IH, Nat2Z.inj_succ, Z.pow_succ_r by lia. ring.
Qed.

Lemma shiftPos_digits k q :
  Z.pos (digits2_pos (shiftPos k q)) = Z.pos (digits2_pos q) + Z.of_nat k.
Proof.
  induction k as [|k IH]; [simpl; lia|].
  unfold shiftPos in *. rewrite Nat.iter_succ. simpl digits2_pos.
  rewrite Pos2Z.inj_succ, IH. lia.
Qed.

Lemma iter_pos_nat {A} (f : A -> A) p : forall x,
  SpecFloat.iter_pos f p x = Nat.iter (Pos.to_nat p) f x.
Proof.
  induction p as [p IH|p IH|]; intros x.
  - rewrite Pos2Nat.inj_xI. cbn [SpecFloat.iter_pos]. rewrite !IH.
    replace (S (2 * Pos.to_nat p)) with (Pos.to_nat p + (Pos.to_nat p + 1))%nat
      by lia.
    rewrite !Nat.iter_add. reflexivity.
  - rewrite Pos2Nat.inj_xO. cbn [SpecFloat.iter_pos]. rewrite !IH.
    replace (2 * Pos.to_nat p)%nat with (Pos.to_nat p + Pos.to_nat p)%nat by lia.
    rewrite Nat.iter_add. reflexivity.
  - reflexivity.
Qed.

Lemma Pos_iter_nat {A} (f : A -> A) p x :
  Pos.iter f x p = Nat.iter (Pos.to_nat p) f x.
Proof.
  revert x. induction p as [p IH|p IH|]; intros x.
  - rewrite Pos2Nat.inj_xI. cbn [Pos.iter]. rewrite !IH.
    replace (S (2 * Pos.to_nat p)) with (S (Pos.to_nat p + Pos.to_nat p))%nat
      by lia.
    rewrite Nat.iter_succ, Nat.iter_add. reflexivity.
  - rewrite Pos2Nat.inj_xO. cbn [Pos.iter]. rewrite !IH.
    replace (2 * Pos.to_nat p)%nat with (Pos.to_nat p + Pos.to_nat p)%nat by lia.
    rewrite Nat.iter_add. reflexivity.
  - reflexivity.
Qed.

(** Shifting out the zeros that were shifted in loses nothing. *)
Lemma shr_shiftPos k : forall r,
  Nat.iter k shr_1
    {| shr_m := Z.pos (shiftPos k r); shr_r := false; shr_s := false |}
  = {| shr_m := Z.pos r; shr_r := false; shr_s := false |}.
Proof.
  induction k as [|k IH]; intros r; [reflexivity|].
  rewrite Nat.iter_succ_r. unfold shiftPos. rewrite Nat.iter_succ.
  simpl shr_1. apply IH.
Qed.


Lemma digits_size q : digits2_pos q = Pos.size q.
Proof. induction q as [q IH|q IH|]; simpl; now rewrite ?IH. Qed.

Lemma digits_bound q :
  Z.pos q < 2 ^ 53 -> 1 <= Z.pos (digits2_pos q) <= 53.
Proof.
  intros Hq. split; [lia|]. rewrite digits_size.
  assert (Hle : 2 ^ Z.pos (Pos.size q) <= 2 * Z.pos q).
  { change (2 * Z.pos q) with (Z.pos q~0).
    change (2 ^ Z.pos (Pos.size q)) with (Z.pos 2 ^ Z.pos (Pos.size q)).
    rewrite <- Pos2Z.inj_pow. apply Pos2Z.pos_le_pos, Pos.size_le. }
  assert (Hlt : 2 ^ Z.pos (Pos.size q) < 2 ^ 54)
    by (change (2 ^ 54) with (2 * 2 ^ 53); lia).
  apply Z.pow_lt_mono_r_iff in Hlt; lia.
Qed.

Lemma shr_exact (t : nat) r e :
  shr {| shr_m := Z.pos (shiftPos t r); shr_r := false; shr_s := false |}
      e (Z.of_nat t)
  = ({| shr_m := Z.pos r; shr_r := false; shr_s := false |}, e + Z.of_nat t).
Proof.
  destruct t as [|t].
  - simpl. f_equal. lia.
  - unfold shr. rewrite Nat2Z.inj_succ, <- Zpos_P_of_succ_nat.
    rewrite iter_pos_nat, SuccNat2Pos.id_succ, shr_shiftPos. reflexivity.
Qed.

(** A mantissa of 53 bits followed by [t] zeros rounds to itself. *)
Lemma round_aux_shift s (t : nat) r e :
  Z.pos (digits2_pos r) = 53 ->
  -1074 <= e + Z.of_nat t <= 971 ->
  binary_round_aux 53 1024 s (Z.pos (shiftPos t r)) e loc_Exact
  = S754_finite s r (e + Z.of_nat t).
Proof.
  intros Hd He. unfold binary_round_aux, shr_fexp.
  cbn [Zdigits2 shr_record_of_loc]. rewrite shiftPos_digits, Hd.
  replace (fexp 53 1024 (53 + Z.of_nat t + e) - e) with (Z.of_nat t)
    by (unfold fexp, emin; lia).
  rewrite shr_exact. cbn [shr_m loc_of_shr_record round_nearest_even].
  cbn [Zdigits2 shr_record_of_loc]. rewrite Hd.
  replace (fexp 53 1024 (53 + (e + Z.of_nat t)) - (e + Z.of_nat t)) with 0
    by (unfold fexp, emin; lia).
  cbn [shr shr_m].
  destruct (Z.leb_spec (e + Z.of_nat t) (1024 - 53)) as [_|Hgt]; [reflexivity|lia].
Qed.

Lemma shiftPos_add a b q : shiftPos a (shiftPos b q) = shiftPos (a + b) q.
Proof. unfold shiftPos. now rewrite Nat.iter_add. Qed.

(** The binary64 value of [q * 2^k * 2^-k], for [q] below 2^53. *)
Lemma binary_round_shiftPos (k : nat) q :
  Z.pos q < 2 ^ 53 ->
  binary_round 53 1024 false (shiftPos k q) (- Z.of_nat k)
  = S754_finite false
      (shiftPos (Z.to_nat (53 - Z.pos (digits2_pos q))) q)
      (Z.pos (digits2_pos q) - 53).
Proof.
  intros Hq. pose proof (digits_bound q Hq) as Hd.
  set (d := Z.pos (digits2_pos q)) in *.
  assert (Hr : Z.pos (digits2_pos (shiftPos (Z.to_nat (53 - d)) q)) = 53).
  { rewrite shiftPos_digits. fold d. lia. }
  unfold binary_round, shl_align. rewrite shiftPos_digits. fold d.
  replace (fexp 53 1024 (d + Z.of_nat k + - Z.of_nat k)) with (d - 53)
    by (unfold fexp, emin; lia).
  destruct (d - 53 - - Z.of_nat k) as [|t|t] eqn:Ht.
  - replace k with (Z.to_nat (53 - d)) at 1 by lia.
    rewrite (round_aux_shift false 0 _ _ Hr) by (simpl; lia).
    f_equal. simpl. lia.
  - replace (shiftPos k q)
      with (shiftPos (Pos.to_nat t) (shiftPos (Z.to_nat (53 - d)) q)).
    + rewrite (round_aux_shift false _ _ _ Hr) by lia. f_equal. lia.
    + rewrite shiftPos_add. f_equal. lia.
  - rewrite Pos_iter_nat. fold (shiftPos (Pos.to_nat t) (shiftPos k q)).
    rewrite shiftPos_add.
    replace (Pos.to_nat t + k)%nat with (Z.to_nat (53 - d)) by lia.
    rewrite (round_aux_shift false 0 _ _ Hr) by (simpl; lia).
    f_equal. simpl. lia.
Qed.

(** The binary64 value of a positive integer below 2^53 is the integer. *)
Lemma Number_shape q :
  Z.pos q < 2 ^ 53 ->
  Number (Z.pos q)
  = S754_finite false
      (shiftPos (Z.to_nat (53 - Z.pos (digits2_pos q))) q)
      (Z.pos (digits2_pos q) - 53).
Proof. intros Hq. exact (binary_round_shiftPos 0 q Hq). Qed.

Lemma integerOf_Number n : 0 <= n <= 2 ^ 53 -> integerOf (Number n) = n.
Proof.
  intros Hn. destruct (Z.eq_dec n (2 ^ 53)) as [->|Hne];
    [vm_compute; reflexivity|].
  destruct n as [|q|q]; [reflexivity| |lia].
  assert (Hq : Z.pos q < 2 ^ 53) by lia.
  rewrite (Number_shape q Hq). pose proof (digits_bound q Hq) as Hd.
  set (d := Z.pos (digits2_pos q)) in *. unfold integerOf.
  rewrite shiftPos_value, Z2Nat.id by lia.
  destruct (Z.leb_spec 0 (d - 53)) as [Hz|Hneg].
  - replace (d - 53) with 0 by lia. replace (53 - d) with 0 by lia. simpl. lia.
  - replace (- (d - 53)) with (53 - d) by lia.
    apply Z.div_mul. apply Z.pow_nonzero; lia.
Qed.

Lemma shl_align_value m e e' :
  e' <= e -> Z.pos (fst (shl_align m e e')) = Z.pos m * 2 ^ (e - e').
Proof.
  intros Hle. unfold shl_align.
  destruct (e' - e) as [|t|t] eqn:Ht; simpl fst.
  - replace (e - e') with 0 by lia. simpl. lia.
  - lia.
  - rewrite Pos_iter_nat. fold (shiftPos (Pos.to_nat t) m).
    rewrite shiftPos_value. f_equal. f_equal. lia.
Qed.

(** Adding 1 is exact up to 2^53. *)
Lemma fadd_one n :
  0 <= n < 2 ^ 53 - 1 -> fadd (Number n) (Number 1) = Number (n + 1).
Proof.
  intros Hn. destruct n as [|q|q]; [reflexivity| |lia].
  assert (Hq : Z.pos q < 2 ^ 53) by lia.
  assert (Hq1 : Z.pos (q + 1) < 2 ^ 53) by lia.
  replace (Z.pos q + 1) with (Z.pos (q + 1)) by lia.
  rewrite (Number_shape _ Hq), (Number_shape _ Hq1).
  pose proof (digits_bound q Hq) as Hd.
  set (d := Z.pos (digits2_pos q)) in *.
  change (Number 1) with (S754_finite false 4503599627370496 (-52)).
  unfold fadd, SFadd. cbn [cond_Zopp].
  replace (Z.min (d - 53) (-52)) with (-52) by lia.
  assert (Hsum : Z.pos (fst (shl_align (shiftPos (Z.to_nat (53 - d)) q)
                               (d - 53) (-52)))
                 + Z.pos (fst (shl_align 4503599627370496 (-52) (-52)))
                 = Z.pos (shiftPos 52 (q + 1))).
  { rewrite !shl_align_value by lia.
    rewrite !shiftPos_value, Z2Nat.id by lia.
    replace (d - 53 - -52) with (d - 1) by lia.
    rewrite <- Z.mul_assoc, <- Z.pow_add_r by lia.
    replace (53 - d + (d - 1)) with 52 by lia.
    change (-52 - -52) with 0. change (Z.of_nat 52) with 52. lia. }
  rewrite Hsum. cbn [binary_normalize].
  exact (binary_round_shiftPos 52 (q + 1) Hq1).
Qed.

Lemma plus_one n : 0 <= n <= 2 ^ 53 -> plus n 1 = Z.min (n + 1) (2 ^ 53).
Proof.
  intros Hn. unfold plus.
  destruct (Z.eq_dec n (2 ^ 53)) as [->|Hne]; [vm_compute; reflexivity|].
  destruct (Z.eq_dec n (2 ^ 53 - 1)) as [->|Hne']; [vm_compute; reflexivity|].
  rewrite fadd_one, integerOf_Number by lia. lia.
Qed.

Lemma plus_zero n : 0 <= n <= 2 ^ 53 -> plus n 0 = n.
Proof.
  intros Hn. unfold plus.
  destruct (Z.eq_dec n (2 ^ 53)) as [->|Hne]; [vm_compute; reflexivity|].
  destruct n as [|q|q]; [reflexivity| |lia].
  rewrite (Number_shape q) by lia. change (Number 0) with (S754_zero false).
  unfold fadd, SFadd. rewrite <- (Number_shape q) by lia.
  apply integerOf_Number. lia.
Qed.

End Binary64.

(** ** The mapping store *)

Section StoreLemmas.

Lemma setTags_same mapping : setTags mapping (tags mapping) = mapping.
Proof. now destruct mapping. Qed.

Lemma getProperty_own {A} (M : gmap string A) k a :
  M !! k = Some a -> getProperty M k = Own a.
Proof. intros H. unfold getProperty. now rewrite H. Qed.

Lemma getProperty_Own {A} (M : gmap string A) k a :
  getProperty M k = Own a -> M !! k = Some a.
Proof.
  unfold getProperty. destruct (M !! k); [now intros [= ->]|].
  destruct (inherited k); discriminate.
Qed.

Lemma getProperty_Undefined {A} (M : gmap string A) k :
  getProperty M k = Undefined -> M !! k = None.
Proof. unfold getProperty. now destruct (M !! k). Qed.

(** A key that is read as before once a key that was there is written. *)
Lemma getProperty_insert {A} (M : gmap string A) k a b key :
  M !! k = Some a ->
  getProperty M key <> Inherited ->
  getProperty (<[k := b]> M) key <> Inherited.
Proof.
  intros Hk. unfold getProperty.
  destruct (decide (k = key)) as [<-|Hne].
  - now rewrite lookup_insert_eq.
  - now rewrite lookup_insert_ne.
Qed.

Lemma bump_id tagId correct tag : tag_id (bump tagId correct tag) = tag_id tag.
Proof. unfold bump. now destruct (String.eqb _ _). Qed.

Lemma bump_label tagId correct tag : label (bump tagId correct tag) = label tag.
Proof. unfold bump. now destruct (String.eqb _ _). Qed.

(** On counters from 0 to 2^53, [+ 1] adds one and stops at 2^53. *)
Lemma bump_inRange tagId correct tag :
  inRange tag ->
  bump tagId correct tag
  = if String.eqb (tag_id tag) tagId
    then {| tag_id := tag_id tag; label := label tag;
            usageCount := Z.min (usageCount tag + 1) maxCounter;
            successCount :=
              Z.min (successCount tag + (if correct then 1 else 0))
                    maxCounter |}
    else tag.
Proof.
  intros [Hs Hu]. unfold bump, maxCounter in *.
  destruct (String.eqb _ _); [|reflexivity].
  rewrite (plus_one _ Hu). f_equal.
  destruct correct; [now apply plus_one|].
  rewrite (plus_zero _ Hs). lia.
Qed.

Lemma inRange_bump tagId correct tag :
  inRange tag -> inRange (bump tagId correct tag).
Proof.
  intros Hr. rewrite (bump_inRange _ _ _ Hr).
  destruct Hr as [Hs Hu]. unfold inRange, maxCounter in *.
  destruct (String.eqb _ _); simpl; [|lia].
  destruct correct; lia.
Qed.

Lemma credited_nil k tag : inRange tag -> credited k [] tag = tag.
Proof.
  intros [Hs Hu]. destruct tag. unfold credited, hitCount, correctHitCount.
  simpl in *. f_equal; lia.
Qed.

Lemma credited_cons_other k u us tag :
  numberValue u <> k -> credited k (u :: us) tag = credited k us tag.
Proof.
  intros Hne. unfold credited, hitCount, correctHitCount, names. simpl.
  destruct (String.eqb_spec (numberValue u) k); [contradiction|].
  reflexivity.
Qed.

Lemma credited_cons_same u us tag :
  inRange tag ->
  credited (numberValue u) (u :: us) tag
  = credited (numberValue u) us (bump (tagId u) (correct u) tag).
Proof.
  intros Hr. rewrite (bump_inRange _ _ _ Hr). destruct Hr as [Hs Hu].
  unfold credited, hitCount, correctHitCount, names, maxCounter in *. simpl.
  rewrite String.eqb_refl. simpl.
  rewrite (String.eqb_sym (tagId u) (tag_id tag)).
  destruct (String.eqb (tag_id tag) (tagId u)); simpl; [|reflexivity].
  destruct (correct u); simpl; f_equal; lia.
Qed.

Lemma countersInRange_insert M k mapping :
  countersInRange M -> Forall inRange (tags mapping) ->
  countersInRange (<[k := mapping]> M).
Proof.
  intros HM Hm k' m'. destruct (decide (k = k')) as [->|Hne].
  - rewrite lookup_insert_eq. now intros [= <-].
  - rewrite lookup_insert_ne by assumption. apply HM.
Qed.

(** The mappings after the [forEach] of [recordTest], key by key. *)
Lemma forEach_lookup us : forall M : gmap string NumberMapping,
  countersInRange M -> ownNames M us ->
  exists M',
    forEach M us = Returns M'
    /\ forall k,
         M' !! k
         = (fun mapping => setTags mapping (map (credited k us) (tags mapping)))
             <$> M !! k.
Proof.
  induction us as [|u us IH]; intros M HM Hown.
  - exists M. split; [reflexivity|]. intros k.
    destruct (M !! k) as [mapping|] eqn:Hk; simpl; [|reflexivity].
    f_equal. rewrite <- (setTags_same mapping) at 1. f_equal.
    rewrite <- (map_id (tags mapping)) at 1. apply map_ext_in.
    intros tag Hin. symmetry. apply credited_nil.
    pose proof (HM k mapping Hk) as Hall. rewrite Forall_forall in Hall.
    now apply Hall, list_elem_of_In.
  - apply Forall_cons in Hown as [Hu Hown]. cbn [forEach].
    unfold applyUsedTag.
    destruct (getProperty M (numberValue u)) as [mapping| |] eqn:Hget;
      [|contradiction|].
    + apply getProperty_Own in Hget.
      pose proof (HM _ _ Hget) as Hall.
      destruct (IH (<[numberValue u :=
                        setTags mapping
                          (map (bump (tagId u) (correct u)) (tags mapping))]> M))
        as (M' & Hrun & Hlook).
      * apply countersInRange_insert; [exact HM|]. simpl.
        apply Forall_map. eapply Forall_impl; [exact Hall|].
        intros tag. apply inRange_bump.
      * eapply Forall_impl; [exact Hown|]. intros v.
        now apply getProperty_insert with (a := mapping).
      * exists M'. split; [exact Hrun|]. intros k. rewrite Hlook.
        destruct (decide (numberValue u = k)) as [<-|Hne].
        -- rewrite lookup_insert_eq, Hget. simpl. f_equal.
           unfold setTags. simpl. f_equal. rewrite map_map.
           apply map_ext_in. intros tag Hin. symmetry.
           apply credited_cons_same. rewrite Forall_forall in Hall.
           now apply Hall, list_elem_of_In.
        -- rewrite lookup_insert_ne by assumption.
           destruct (M !! k); simpl; [|reflexivity]. f_equal. f_equal.
           apply map_ext. intros tag. symmetry.
           now apply credited_cons_other.
    + apply getProperty_Undefined in Hget.
      destruct (IH M HM Hown) as (M' & Hrun & Hlook).
      exists M'. split; [exact Hrun|]. intros k. rewrite Hlook.
      destruct (decide (numberValue u = k)) as [<-|Hne].
      * now rewrite Hget.
      * destruct (M !! k); simpl; [|reflexivity]. f_equal. f_equal.
        apply map_ext. intros tag. symmetry. now apply credited_cons_other.
Qed.

Lemma correctHitCount_bounds k id us :
  0 <= correctHitCount k id us <= hitCount k id us.
Proof.
  unfold correctHitCount, hitCount.
  induction us as [|u us IH]; simpl; [lia|].
  destruct (names k id u); simpl; [|lia].
  destruct (correct u); simpl; lia.
Qed.


Lemma hydrateMappings_empty k mapping :
  hydrateMappings !! k = Some mapping -> tags mapping = [].
Proof.
  unfold hydrateMappings.
  assert (Hgen : forall l (M : gmap string NumberMapping),
             (forall k mapping, M !! k = Some mapping -> tags mapping = []) ->
             forall k mapping,
               foldl (fun mappings value =>
                        <[value := emptyMapping value]> mappings) M l !! k
               = Some mapping -> tags mapping = []).
  { induction l as [|v l IH]; intros M HM k' m'; simpl; [apply HM|].
    apply IH. intros k'' m''.
    destruct (decide (v = k'')) as [->|Hne].
    - rewrite lookup_insert_eq. now intros [= <-].
    - rewrite lookup_insert_ne by assumption. apply HM. }
  apply Hgen. intros k' m'. rewrite lookup_empty. discriminate.
Qed.

(** The seed maps exactly the numbers of [generateNumbers], each to a
    mapping without tags; there are 10 + 100 + 1000 of them. *)
Lemma hydrateMappings_lookup k :
  hydrateMappings !! k
  = if decide (k ∈ generateNumbers) then Some (emptyMapping k) else None.
Proof.
  unfold hydrateMappings.
  assert (Hgen : forall l (M : gmap string NumberMapping),
             foldl (fun mappings value =>
                      <[value := emptyMapping value]> mappings) M l !! k
             = if decide (k ∈ l) then Some (emptyMapping k) else M !! k).
  { induction l as [|v l IH]; intros M; simpl.
    - destruct (decide (k ∈ [])) as [Hin|_]; [|reflexivity].
      now apply elem_of_nil in Hin.
    - rewrite IH.
      destruct (decide (k ∈ l)) as [Hin|Hout].
      + destruct (decide (k ∈ v :: l)) as [_|Hno]; [reflexivity|].
        exfalso. apply Hno. apply elem_of_cons. now right.
      + destruct (decide (v = k)) as [->|Hne].
        * rewrite lookup_insert_eq.
          destruct (decide (k ∈ k :: l)) as [_|Hno]; [reflexivity|].
          exfalso. apply Hno. apply elem_of_cons. now left.
        * rewrite lookup_insert_ne by assumption.
          destruct (decide (k ∈ v :: l)) as [Hin|_]; [|reflexivity].
          apply elem_of_cons in Hin as [->|Hin]; contradiction. }
  rewrite Hgen. now rewrite lookup_empty.
Qed.

Example generateNumbers_values :
  length generateNumbers = 1110%nat
  /\ size hydrateMappings = 1110%nat
  /\ hydrateMappings !! "7" = Some (emptyMapping "7")
  /\ hydrateMappings !! "07" = Some (emptyMapping "07")
  /\ hydrateMappings !! "007" = Some (emptyMapping "007")
  /\ hydrateMappings !! "0007" = None.
Proof. by_computation. Qed.

(** *** The invariant of the counters *)

Lemma countersOk_seed : countersOk (mappings seedState).
Proof.
  intros k mapping Hk. simpl in Hk.
  rewrite (hydrateMappings_empty _ _ Hk). constructor.
Qed.

Lemma countersOk_insert M k mapping :
  countersOk M -> Forall tagOk (tags mapping) ->
  countersOk (<[k := mapping]> M).
Proof.
  intros HM Hm k' m'. destruct (decide (k = k')) as [->|Hne].
  - rewrite lookup_insert_eq. now intros [= <-].
  - rewrite lookup_insert_ne by assumption. apply HM.
Qed.

Lemma tagOk_inRange tag : tagOk tag -> inRange tag.
Proof. unfold tagOk, inRange. lia. Qed.

Lemma tagOk_bump tagId correct tag : tagOk tag -> tagOk (bump tagId correct tag).
Proof.
  intros Hok. rewrite (bump_inRange _ _ _ (tagOk_inRange _ Hok)).
  unfold tagOk, maxCounter in *.
  destruct (String.eqb _ _); simpl; [|exact Hok].
  destruct correct; lia.
Qed.

Lemma countersOk_addTag now numberValue label prev next :
  countersOk (mappings prev) ->
  snd (addTag now numberValue label prev) = Returns next ->
  countersOk (mappings next).
Proof.
  intros Hprev. unfold addTag. simpl.
  destruct (getProperty (mappings prev) numberValue) as [mapping| |] eqn:Hget;
    intros [= <-]; [|exact Hprev].
  apply getProperty_Own in Hget.
  simpl. apply countersOk_insert; [assumption|]. simpl.
  apply Forall_app. split; [now apply (Hprev numberValue)|].
  constructor; [|constructor]. unfold tagOk, maxCounter. simpl. lia.
Qed.

Lemma countersOk_updateTag numberValue tagId label prev next :
  countersOk (mappings prev) ->
  updateTag numberValue tagId label prev = Returns next ->
  countersOk (mappings next).
Proof.
  intros Hprev. unfold updateTag.
  destruct (getProperty (mappings prev) numberValue) as [mapping| |] eqn:Hget;
    intros [= <-]; [|exact Hprev].
  apply getProperty_Own in Hget.
  simpl. apply countersOk_insert; [assumption|]. simpl.
  apply Forall_map. eapply Forall_impl; [now apply (Hprev numberValue)|].
  intros tag Htag. unfold relabel, tagOk in *.
  now destruct (String.eqb _ _).
Qed.

Lemma countersOk_forEach us : forall M M',
  countersOk M -> forEach M us = Returns M' -> countersOk M'.
Proof.
  induction us as [|u us IH]; intros M M' HM; cbn [forEach].
  - now intros [= <-].
  - unfold applyUsedTag.
    destruct (getProperty M (numberValue u)) as [mapping| |] eqn:Hget;
      [|discriminate|now apply IH].
    apply getProperty_Own in Hget. apply IH.
    apply countersOk_insert; [assumption|]. simpl.
    apply Forall_map. eapply Forall_impl; [now apply (HM (numberValue u))|].
    intros tag. apply tagOk_bump.
Qed.

Lemma countersOk_recordTest result usedTags prev next :
  countersOk (mappings prev) ->
  recordTest result usedTags prev = Returns next ->
  countersOk (mappings next).
Proof.
  intros Hprev. unfold recordTest.
  destruct (forEach (mappings prev) usedTags) as [M'|] eqn:Hrun;
    intros [= <-]. simpl.
  exact (countersOk_forEach usedTags _ _ Hprev Hrun).
Qed.

Lemma countersOk_applyOp op s s' :
  countersOk (mappings s) -> applyOp op s = Returns s' ->
  countersOk (mappings s').
Proof.
  intros Hs. destruct op as [now numberValue label|numberValue tagId label
                            |result usedTags]; simpl.
  - now apply countersOk_addTag.
  - now apply countersOk_updateTag.
  - now apply countersOk_recordTest.
Qed.

Lemma countersOk_reachable s : storeReachable s -> countersOk (mappings s).
Proof.
  induction 1 as [|op s s' Hs IH Hop]; [apply countersOk_seed|].
  exact (countersOk_applyOp op s s' IH Hop).
Qed.

Lemma countersOk_inRange M : countersOk M -> countersInRange M.
Proof.
  intros HM k mapping Hk. eapply Forall_impl; [exact (HM k mapping Hk)|].
  apply tagOk_inRange.
Qed.

(** An update that returned, on a reachable state, gives a reachable
    state. *)
Lemma reach_orElse op s fallback :
  storeReachable s -> returned (applyOp op s) = true ->
  storeReachable (orElse (applyOp op s) fallback).
Proof.
  intros Hs Hret. destruct (applyOp op s) as [s'|] eqn:Hop; [|discriminate].
  exact (reach_op op s s' Hs Hop).
Qed.

Lemma taggedStore_reachable : storeReachable taggedStore.
Proof.
  apply reach_orElse; [apply reach_seed | vm_compute; reflexivity].
Qed.

Lemma sampleStore_reachable : storeReachable sampleStore.
Proof.
  apply reach_orElse; [apply taggedStore_reachable | vm_compute; reflexivity].
Qed.

End StoreLemmas.

(** ** Claims about the mapping store *)

Section StoreClaims.

Lemma lookup_map {A B} (f : A -> B) (l : list A) (i : nat) :
  map f l !! i = f <$> l !! i.
Proof.
  revert i. induction l as [|x l IH]; intros [|i]; simpl; try reflexivity.
  apply IH.
Qed.

Lemma recordTest_lookup result usedTags prev :
  countersInRange (mappings prev) -> ownNames (mappings prev) usedTags ->
  exists next,
    recordTest result usedTags prev = Returns next
    /\ tests next = result :: tests prev
    /\ forall k,
         mappings next !! k
         = (fun mapping =>
              setTags mapping (map (credited k usedTags) (tags mapping)))
             <$> mappings prev !! k.
Proof.
  intros Hrange Hown. unfold recordTest.
  destruct (forEach_lookup usedTags _ Hrange Hown) as (M' & -> & Hlook).
  eexists. split; [reflexivity|]. split; [reflexivity | exact Hlook].
Qed.

Lemma credited_unnamed k us tag :
  inRange tag -> hitCount k (tag_id tag) us = 0 -> credited k us tag = tag.
Proof.
  intros [Hs Hu] Hz. pose proof (correctHitCount_bounds k (tag_id tag) us) as Hb.
  destruct tag. unfold credited in *. simpl in *. f_equal; lia.
Qed.

Lemma ownNames_app M us vs : ownNames M (us ++ vs) <-> ownNames M us /\ ownNames M vs.
Proof. unfold ownNames. apply Forall_app. Qed.

(** C3, as amended.  When [numberValue] is no key of the mappings and
    names no property the mappings object inherits, [addTag] leaves the
    state as it was, and still returns the identifier it built from the
    number and the clock, [numberValue-now], which is a non-empty text: the
    returned value does not tell the caller that nothing was added. *)
Theorem addTag_absent_key now numberValue label prev :
  mappings prev !! numberValue = None ->
  inherited numberValue = false ->
  snd (addTag now numberValue label prev) = Returns prev
  /\ fst (addTag now numberValue label prev)
     = numberValue +:+ "-" +:+ toString now
  /\ truthy (fst (addTag now numberValue label prev)) = true.
Proof.
  intros Habsent Hown. unfold addTag, getProperty. simpl.
  rewrite Habsent, Hown. repeat split. apply nextIdOf_truthy.
Qed.

Lemma addTag_absent_key_witness :
  mappings seedState !! "1234" = None
  /\ inherited "1234" = false
  /\ (snd (addTag 1000 "1234" "door" seedState) = Returns seedState
      /\ fst (addTag 1000 "1234" "door" seedState)
         = "1234" +:+ "-" +:+ toString 1000
      /\ truthy (fst (addTag 1000 "1234" "door" seedState)) = true).
Proof.
  split; [vm_compute; reflexivity|]. split; [vm_compute; reflexivity|].
  apply (addTag_absent_key 1000 "1234" "door" seedState);
    vm_compute; reflexivity.
Defined.

(** C3 as stated fails: "1234" is no key of the seeded mappings, and
    [addTag] returns the identifier "1234-1000" all the same. *)
Lemma addTag_absent_returns_id :
  mappings seedState !! "1234" = None
  /\ fst (addTag 1000 "1234" "door" seedState) = "1234-1000"
  /\ ~ (snd (addTag 1000 "1234" "door" seedState) = Returns seedState
        /\ truthy (fst (addTag 1000 "1234" "door" seedState)) = false).
Proof.
  split; [vm_compute; reflexivity|].
  split; [vm_compute; reflexivity|].
  intros [_ Hfalse]. vm_compute in Hfalse. discriminate Hfalse.
Qed.

(** An entry that names no tag of the mappings can be left out. *)
Lemma recordTest_skip result before u after prev :
  countersInRange (mappings prev) ->
  ownNames (mappings prev) (before ++ u :: after) ->
  match mappings prev !! numberValue u with
  | None => True
  | Some mapping => Forall (fun tag => tag_id tag <> tagId u) (tags mapping)
  end ->
  recordTest result (before ++ u :: after) prev
  = recordTest result (before ++ after) prev.
Proof.
  intros Hrange Hown Hunnamed.
  assert (Hown' : ownNames (mappings prev) (before ++ after)).
  { apply ownNames_app in Hown as [Hb Ha]. apply Forall_cons in Ha as [_ Ha].
    apply ownNames_app. now split. }
  destruct (recordTest_lookup result _ prev Hrange Hown)
    as (next & -> & Htests & Hlook).
  destruct (recordTest_lookup result _ prev Hrange Hown')
    as (next' & -> & Htests' & Hlook').
  f_equal. destruct next as [M T], next' as [M' T']. simpl in *.
  f_equal; [|congruence].
  apply map_eq. intros k. rewrite Hlook, Hlook'.
  destruct (mappings prev !! k) as [mapping|] eqn:Hk; simpl; [|reflexivity].
  f_equal. f_equal. apply map_ext_in. intros tag Hin.
  assert (Hnames : names k (tag_id tag) u = false).
  { unfold names. destruct (String.eqb_spec (numberValue u) k) as [Heq|Hne];
      [|reflexivity].
    rewrite Heq, Hk in Hunnamed. rewrite Forall_forall in Hunnamed.
    specialize (Hunnamed tag (proj2 (list_elem_of_In _ _) Hin)).
    simpl. apply String.eqb_neq. congruence. }
  unfold credited, hitCount, correctHitCount.
  rewrite !List.filter_app. simpl. now rewrite Hnames.
Qed.

(** C5, as amended.  On mappings whose counters are integers from 0 to
    2^53, and for a list none of whose entries names a property the mappings
    only inherit, [recordTest] returns; it prepends the result and, in every
    mapping, gives each tag one use for each entry of [usedTags] that names
    its mapping and its id, and one success for each such entry whose
    [correct] flag is set, a counter that reaches 2^53 staying there.
    Nothing else changes: a key without mapping stays without one, a tag no
    entry names is the tag it was, and an entry whose number has no mapping,
    or whose id no tag of the mapping has, is skipped: the result is that of
    the list without it. *)
Theorem recordTest_counters result prev usedTags :
  countersInRange (mappings prev) ->
  ownNames (mappings prev) usedTags ->
  exists next,
    recordTest result usedTags prev = Returns next
    /\ tests next = result :: tests prev
    /\ (forall k,
          match mappings prev !! k with
          | None => mappings next !! k = None
          | Some mapping =>
              exists mapping',
                mappings next !! k = Some mapping'
                /\ mapping_id mapping' = mapping_id mapping
                /\ number mapping' = number mapping
                /\ Forall2
                     (fun tag tag' =>
                        tag_id tag' = tag_id tag /\ label tag' = label tag
                        /\ usageCount tag'
                           = Z.min (usageCount tag
                                    + hitCount k (tag_id tag) usedTags)
                                   (2 ^ 53)
                        /\ successCount tag'
                           = Z.min (successCount tag
                                    + correctHitCount k (tag_id tag) usedTags)
                                   (2 ^ 53)
                        /\ (hitCount k (tag_id tag) usedTags = 0 -> tag' = tag))
                     (tags mapping) (tags mapping')
          end)
    /\ (forall (before : list UsedTag) u after,
          usedTags = (before ++ u :: after)%list ->
          match mappings prev !! numberValue u with
          | None => True
          | Some mapping =>
              Forall (fun tag => tag_id tag <> tagId u) (tags mapping)
          end ->
          recordTest result (before ++ after) prev = Returns next).
Proof.
  intros Hrange Hown.
  destruct (recordTest_lookup result usedTags prev Hrange Hown)
    as (next & Hrun & Htests & Hlook).
  exists next. split; [exact Hrun|]. split; [exact Htests|]. split.
  - intros k. rewrite Hlook.
    destruct (mappings prev !! k) as [mapping|] eqn:Hk; simpl; [|reflexivity].
    eexists. split; [reflexivity|]. simpl. repeat split.
    pose proof (Hrange k mapping Hk) as Hall.
    induction (tags mapping) as [|tag l IH]; simpl; constructor.
    + apply Forall_cons in Hall as [Htag _]. repeat split.
      now apply credited_unnamed.
    + apply IH. now apply Forall_cons in Hall as [_ Hall].
  - intros before u after -> Hunnamed.
    now rewrite <- (recordTest_skip result before u after prev).
Qed.

Lemma recordTest_counters_witness :
  countersInRange (mappings taggedStore)
  /\ ownNames (mappings taggedStore) twoUses
  /\ exists next mapping' tag',
       recordTest sampleResult twoUses taggedStore = Returns next
       /\ tests next = sampleResult :: tests taggedStore
       /\ mappings next !! "7" = Some mapping'
       /\ tags mapping' = [tag']
       /\ tag_id tag' = "7-1000" /\ label tag' = "axe"
       /\ usageCount tag' = Z.min (0 + 2) (2 ^ 53)
       /\ successCount tag' = Z.min (0 + 1) (2 ^ 53)
       /\ mappings next !! "1234" = None.
Proof.
  assert (Hrange : countersInRange (mappings taggedStore))
    by exact (countersOk_inRange _
                (countersOk_reachable _ taggedStore_reachable)).
  assert (Hown : ownNames (mappings taggedStore) twoUses)
    by (repeat constructor; intros H; vm_compute in H; discriminate H).
  assert (Hk : mappings taggedStore !! "7"
               = Some {| mapping_id := "7"; number := "7";
                         tags := [ {| tag_id := "7-1000"; label := "axe";
                                      usageCount := 0;
                                      successCount := 0 |} ] |})
    by (vm_compute; reflexivity).
  assert (Hnone : mappings taggedStore !! "1234" = None)
    by (vm_compute; reflexivity).
  assert (Hhits : hitCount "7" "7-1000" twoUses = 2)
    by (vm_compute; reflexivity).
  assert (Hgood : correctHitCount "7" "7-1000" twoUses = 1)
    by (vm_compute; reflexivity).
  split; [exact Hrange|]. split; [exact Hown|].
  destruct (recordTest_counters sampleResult taggedStore twoUses Hrange Hown)
    as (next & Hrun & Htests & Hkeys & _).
  pose proof (Hkeys "7") as H7. rewrite Hk in H7.
  destruct H7 as (mapping' & Hm & _ & _ & Hall).
  cbn [tags] in Hall.
  apply Forall2_cons_inv_l in Hall as (tag' & rest & Htag & Hrest & Htags).
  apply Forall2_nil_inv_l in Hrest. subst rest.
  cbn [tag_id label usageCount successCount] in Htag.
  rewrite Hhits, Hgood in Htag.
  destruct Htag as (Hid & Hlabel & Hu & Hs & _).
  pose proof (Hkeys "1234") as Habsent. rewrite Hnone in Habsent.
  exists next, mapping', tag'.
  repeat (split; [assumption|]). exact Habsent.
Defined.

(** C5 as stated fails.  A tag used 2^53 times is named by an entry and its
    [usageCount] stays 2^53; and an entry whose number is "constructor",
    which no mapping has, is not skipped: the update throws. *)
Lemma recordTest_stops_at_the_limit :
  mappings (storeWithCounters (2 ^ 53) 0) !! "7"
  = Some {| mapping_id := "7"; number := "7";
            tags := [ {| tag_id := "7-1000"; label := "axe";
                         usageCount := 2 ^ 53; successCount := 0 |} ] |}
  /\ mappingAfter
       (recordTest sampleResult
          [ {| numberValue := "7"; tagId := "7-1000"; correct := true |} ]
          (storeWithCounters (2 ^ 53) 0)) "7"
     = Some {| mapping_id := "7"; number := "7";
               tags := [ {| tag_id := "7-1000"; label := "axe";
                            usageCount := 2 ^ 53; successCount := 1 |} ] |}
  /\ 2 ^ 53 <> 2 ^ 53 + 1
  /\ mappings seedState !! "constructor" = None
  /\ recordTest sampleResult
       [ {| numberValue := "constructor"; tagId := "7-1000";
            correct := true |} ]
       seedState
     = TypeError.
Proof.
  split; [vm_compute; reflexivity|].
  split; [vm_compute; reflexivity|].
  split; [lia|]. by_computation.
Qed.



(** C6.  In every state reached from the seed by [addTag], [updateTag] and
    [recordTest], every tag of every mapping has
    [0 <= successCount <= usageCount]. *)
Theorem counters_invariant s k mapping tag :
  storeReachable s ->
  mappings s !! k = Some mapping ->
  tag ∈ tags mapping ->
  0 <= successCount tag <= usageCount tag.
Proof.
  intros Hs Hk Htag.
  pose proof (countersOk_reachable s Hs k mapping Hk) as Hall.
  rewrite Forall_forall in Hall. exact (proj1 (Hall tag Htag)).
Qed.

Lemma counters_invariant_witness :
  storeReachable sampleStore
  /\ mappings sampleStore !! "7"
     = Some {| mapping_id := "7"; number := "7"; tags := [sampleTag] |}
  /\ 0 <= successCount sampleTag <= usageCount sampleTag.
Proof.
  assert (Hlook : mappings sampleStore !! "7"
                  = Some {| mapping_id := "7"; number := "7";
                            tags := [sampleTag] |})
    by (vm_compute; reflexivity).
  split; [exact sampleStore_reachable|]. split; [exact Hlook|].
  apply (counters_invariant sampleStore "7" _ sampleTag
           sampleStore_reachable Hlook).
  apply list_elem_of_here.
Defined.

Lemma forEach_app us : forall M u,
  forEach M (us ++ [u])
  = match forEach M us with
    | Returns M' => applyUsedTag M' u
    | TypeError => TypeError
    end.
Proof.
  induction us as [|v us IH]; intros M u; cbn [forEach app].
  - now destruct (applyUsedTag M u).
  - destruct (applyUsedTag M v) as [M1|]; [apply IH | reflexivity].
Qed.

(** C10, as amended.  The [forEach] of [recordTest] works on the mappings
    the earlier entries have already updated, so the entries that name one
    tag add up: with [n] entries naming the tag [id] of mapping [k], whose
    [usageCount] is at most 2^53 - n, the tag ends with [n] more uses, and
    with as many more successes as those entries have [correct] set. *)
Theorem recordTest_accumulates result usedTags prev k id mapping i tag n :
  countersInRange (mappings prev) ->
  ownNames (mappings prev) usedTags ->
  mappings prev !! k = Some mapping ->
  tags mapping !! i = Some tag ->
  tag_id tag = id ->
  length (List.filter (names k id) usedTags) = n ->
  successCount tag <= usageCount tag ->
  usageCount tag + Z.of_nat n <= 2 ^ 53 ->
  (forall u,
     forEach (mappings prev) (usedTags ++ [u])
     = match forEach (mappings prev) usedTags with
       | Returns updated => applyUsedTag updated u
       | TypeError => TypeError
       end)
  /\ exists next mapping' tag',
       recordTest result usedTags prev = Returns next
       /\ mappings next !! k = Some mapping'
       /\ tags mapping' !! i = Some tag'
       /\ usageCount tag' = usageCount tag + Z.of_nat n
       /\ successCount tag'
          = successCount tag
            + Z.of_nat (length (List.filter
                                  (fun u => names k id u && correct u)
                                  usedTags)).
Proof.
  intros Hrange Hown Hk Hi Hid Hn Hle Hroom. subst id n. split.
  - intros u. apply forEach_app.
  - destruct (recordTest_lookup result usedTags prev Hrange Hown)
      as (next & Hrun & _ & Hlook).
    exists next. rewrite Hlook, Hk. simpl.
    eexists. eexists. split; [exact Hrun|]. split; [reflexivity|]. simpl.
    rewrite lookup_map, Hi. simpl. split; [reflexivity|].
    pose proof (correctHitCount_bounds k (tag_id tag) usedTags) as Hb.
    unfold credited, hitCount, correctHitCount, maxCounter in *. simpl.
    split; lia.
Qed.

Lemma recordTest_accumulates_witness :
  exists next mapping' tag',
    recordTest sampleResult twoUses taggedStore = Returns next
    /\ mappings next !! "7" = Some mapping'
    /\ tags mapping' !! 0%nat = Some tag'
    /\ usageCount tag' = 0 + 2
    /\ successCount tag' = 0 + 1.
Proof.
  assert (Hrange : countersInRange (mappings taggedStore))
    by exact (countersOk_inRange _
                (countersOk_reachable _ taggedStore_reachable)).
  assert (Hown : ownNames (mappings taggedStore) twoUses)
    by (repeat constructor; intros H; vm_compute in H; discriminate H).
  assert (Hk : mappings taggedStore !! "7"
               = Some {| mapping_id := "7"; number := "7";
                         tags := [ {| tag_id := "7-1000"; label := "axe";
                                      usageCount := 0;
                                      successCount := 0 |} ] |})
    by (vm_compute; reflexivity).
  assert (Hn : length (List.filter (names "7" "7-1000") twoUses) = 2%nat)
    by (vm_compute; reflexivity).
  assert (Hroom : 0 + Z.of_nat 2 <= 2 ^ 53) by (vm_compute; discriminate).
  exact (proj2 (recordTest_accumulates sampleResult twoUses taggedStore
                  "7" "7-1000" _ 0%nat _ 2%nat Hrange Hown Hk
                  eq_refl eq_refl Hn (Z.le_refl 0) Hroom)).
Defined.

(** C10 as stated fails.  The two entries of [twoUses] name the tag
    "7-1000"; when it was used 2^53 - 1 times, it ends with 2^53 uses, one
    more and not two. *)
Lemma recordTest_counts_once_at_the_limit :
  length (List.filter (names "7" "7-1000") twoUses) = 2%nat
  /\ mappingAfter
       (recordTest sampleResult twoUses (storeWithCounters (2 ^ 53 - 1) 0)) "7"
     = Some {| mapping_id := "7"; number := "7";
               tags := [ {| tag_id := "7-1000"; label := "axe";
                            usageCount := 2 ^ 53; successCount := 1 |} ] |}
  /\ 2 ^ 53 <> (2 ^ 53 - 1) + 2.
Proof.
  split; [vm_compute; reflexivity|].
  split; [vm_compute; reflexivity|]. lia.
Qed.

End StoreClaims.

(** ** Claims about the statistics *)

Section StatisticsClaims.

(** [Math.round] rounds half up: the integer [r] it picks for
    [x = n * 2^e] satisfies [x - 1/2 < r <= x + 1/2]. *)
Lemma roundedInteger_half_up (s : bool) (m : positive) (e : Z) :
  e < 0 ->
  let n := if s then Z.neg m else Z.pos m in
  let r := roundedInteger s m e in
  2 * n - 2 ^ (- e) < 2 * r * 2 ^ (- e) <= 2 * n + 2 ^ (- e).
Proof.
  intros He n r. unfold r, roundedInteger. fold n.
  replace (1 - e) with (Z.succ (- e)) by lia.
  rewrite Z.pow_succ_r by lia.
  assert (Hd : 0 < 2 ^ (- e)) by (apply Z.pow_pos_nonneg; lia).
  set (d := 2 ^ (- e)) in *.
  assert (Hdd : 0 < 2 * d) by lia.
  pose proof (Z.mul_div_le (2 * n + d) (2 * d) Hdd) as Hle.
  pose proof (Z.mul_succ_div_gt (2 * n + d) (2 * d) Hdd) as Hgt.
  lia.
Qed.








End StatisticsClaims.

(** ** Claims about the recent-activity count *)

Section HistoryClaims.

(** C9, as amended.  The count is of the tests stamped at or after
    [now - 24 h]: the window is the constant 24 * 60 * 60 * 1000, and nothing
    bounds the time from above.  Each test counts for one when its time is
    read and is at least [now - 24 h], whatever the other tests are; so the
    count is the number of tests within [now - 24 h, now] plus the number of
    tests stamped later than [now], and it is the number within the interval
    exactly when no test is stamped later than [now]. *)
Theorem testsLast24h_window parseTime now tests :
  testsLast24h parseTime now [] = 0%nat
  /\ (forall test,
        testsLast24h parseTime now (test :: tests)
        = ((match parseTime (date test) with
            | Some t => if (now - 24 * 60 * 60 * 1000 <=? t)%Z then 1 else 0
            | None => 0
            end)
           + testsLast24h parseTime now tests)%nat)
  /\ testsLast24h parseTime now tests
     = (recentCount parseTime tests (24 * 60 * 60 * 1000) now
        + laterCount parseTime now tests)%nat
  /\ (testsLast24h parseTime now tests
      = recentCount parseTime tests (24 * 60 * 60 * 1000) now
      <-> laterCount parseTime now tests = 0%nat).
Proof.
  assert (Hcons : forall test l,
            testsLast24h parseTime now (test :: l)
            = ((match parseTime (date test) with
                | Some t => if (now - 24 * 60 * 60 * 1000 <=? t)%Z then 1 else 0
                | None => 0
                end)
               + testsLast24h parseTime now l)%nat).
  { intros test l. unfold testsLast24h. simpl. unfold notBefore at 1.
    destruct (parseTime (date test)) as [t|]; [|reflexivity].
    now destruct (now - 24 * 60 * 60 * 1000 <=? t). }
  assert (Hsum : testsLast24h parseTime now tests
                 = (recentCount parseTime tests (24 * 60 * 60 * 1000) now
                    + laterCount parseTime now tests)%nat).
  { induction tests as [|test l IH]; [reflexivity|].
    rewrite Hcons, IH. unfold recentCount, laterCount. simpl.
    assert (Hin : withinWindow parseTime (24 * 60 * 60 * 1000) now test
                  = match parseTime (date test) with
                    | Some t => (now - 24 * 60 * 60 * 1000 <=? t) && (t <=? now)
                    | None => false
                    end) by reflexivity.
    assert (Hout : laterThan parseTime now test
                   = match parseTime (date test) with
                     | Some t => now <? t
                     | None => false
                     end) by reflexivity.
    rewrite Hin, Hout.
    destruct (parseTime (date test)) as [t|]; [|reflexivity].
    destruct (Z.leb_spec (now - 24 * 60 * 60 * 1000) t) as [Hlo|Hlo];
      destruct (Z.leb_spec t now) as [Hhi|Hhi];
      destruct (Z.ltb_spec now t) as [Hlt|Hlt]; simpl; lia. }
  split; [reflexivity|]. split; [intros test; apply Hcons|].
  split; [exact Hsum|]. rewrite Hsum. lia.
Qed.

(** C9 as stated fails: with the clock at 2024-01-02T00:00:00.000Z, a test
    stamped one millisecond later is outside the closed interval and is
    counted. *)
Lemma testsLast24h_counts_later_test :
  getTime "2024-01-02T00:00:00.000Z" = Some 1704153600000
  /\ getTime "2024-01-02T00:00:00.001Z" = Some 1704153600001
  /\ testsLast24h getTime 1704153600000 [testAt "2024-01-02T00:00:00.001Z"]
     = 1%nat
  /\ recentCount getTime [testAt "2024-01-02T00:00:00.001Z"]
       (24 * 60 * 60 * 1000) 1704153600000
     = 0%nat.
Proof. by_computation. Qed.

End HistoryClaims.

(** ** Claims about the load at start-up *)

Section PersistenceClaims.

(** No row, or a failed statement: the seed is adopted. *)
Lemma mountProvider_absent :
  mountProvider (QueryRows []) = seeded /\ mountProvider QueryFailed = seeded.
Proof. split; reflexivity. Qed.

(** A text [JSON.parse] rejects: the promise is never resolved, and the
    provider keeps the empty initial state, unhydrated. *)
Lemma mountProvider_throws stored others :
  JSON_parse stored = SyntaxError ->
  mountProvider (QueryRows (stored :: others)) = stuck.
Proof. intros Hthrow. unfold mountProvider, loadState. now rewrite Hthrow. Qed.

(** The three outcomes of the load of a stored text. *)
Lemma mountProvider_cases stored others :
  (JSON_parse stored = SyntaxError
   /\ mountProvider (QueryRows (stored :: others)) = stuck)
  \/ exists v,
       JSON_parse stored = Parsed v ""
       /\ mountProvider (QueryRows (stored :: others))
          = if jsonTruthy v
            then {| state := Adopted v; hydrated := true |}
            else seeded.
Proof.
  destruct (JSON_parse_answers stored) as [Hthrow|[v Hv]].
  - left. split; [exact Hthrow | now apply mountProvider_throws].
  - right. exists v. split; [exact Hv|].
    unfold mountProvider, loadState. now rewrite Hv.
Qed.

Lemma stuck_not_seeded : stuck <> seeded.
Proof. intros Heq. discriminate (f_equal hydrated Heq). Qed.

(** C4, on the code.  The stored text [{oops] is not JSON: the load leaves
    the provider with no mapping at all and unhydrated, where an absent value
    gives the seed.  The stored text [{}] is JSON but no [AppState]: it is
    adopted as it is, where an absent value gives the seed. *)
Theorem mountProvider_malformed :
  JSON_parse "{oops" = SyntaxError
  /\ mountProvider (QueryRows ["{oops"]) = stuck
  /\ mountProvider (QueryRows ["{oops"]) <> mountProvider (QueryRows [])
  /\ mappings INITIAL_STATE !! "0" = None
  /\ mappings seedState !! "0" = Some (emptyMapping "0")
  /\ mountProvider (QueryRows ["{}"])
     = {| state := Adopted (JObject []); hydrated := true |}.
Proof.
  assert (Hthrow : JSON_parse "{oops" = SyntaxError) by (vm_compute; reflexivity).
  split; [exact Hthrow|].
  split; [now apply mountProvider_throws|].
  split.
  - rewrite (mountProvider_throws _ [] Hthrow).
    rewrite (proj1 mountProvider_absent). apply stuck_not_seeded.
  - by_computation.
Qed.

End PersistenceClaims.
(** ** The practice session *)

Section SessionLemmas.

Lemma getSlot_setSlot i v obj : getSlot i (setSlot i v obj) = Some v.
Proof.
  induction obj as [|[k w] obj IH]; simpl.
  - now rewrite Nat.eqb_refl.
  - destruct (Nat.ltb_spec i k) as [Hlt|Hge]; simpl.
    + now rewrite Nat.eqb_refl.
    + destruct (Nat.eqb_spec i k) as [->|Hne]; simpl.
      * now rewrite Nat.eqb_refl.
      * destruct (Nat.eqb_spec k i) as [->|_]; [contradiction | exact IH].
Qed.

Lemma setSlot_Forall (P : nat -> Prop) i v obj :
  P i -> Forall P (slotKeys obj) -> Forall P (slotKeys (setSlot i v obj)).
Proof.
  intros Hi. induction obj as [|[k w] obj IH]; simpl; intros Hall.
  - constructor; [exact Hi | constructor].
  - apply Forall_cons in Hall as [Hk Hrest].
    destruct (Nat.ltb_spec i k) as [Hlt|Hge]; simpl.
    + constructor; [exact Hi|]. constructor; assumption.
    + destruct (Nat.eqb_spec i k) as [->|Hne]; simpl.
      * constructor; assumption.
      * constructor; [exact Hk | now apply IH].
Qed.

Lemma setSlot_sorted i v obj :
  StronglySorted lt (slotKeys obj) ->
  StronglySorted lt (slotKeys (setSlot i v obj)).
Proof.
  induction obj as [|[k w] obj IH]; simpl; intros Hs.
  - constructor; constructor.
  - apply StronglySorted_inv in Hs as [Hrest Hk].
    destruct (Nat.ltb_spec i k) as [Hlt|Hge]; simpl.
    + constructor; [constructor; assumption|].
      constructor; [exact Hlt|].
      eapply Forall_impl; [exact Hk|]. simpl. intros; lia.
    + destruct (Nat.eqb_spec i k) as [->|Hne]; simpl.
      * constructor; assumption.
      * constructor; [now apply IH|].
        apply (setSlot_Forall (lt k)); [lia | exact Hk].
Qed.

(** Ascending keys that fill a range are the range. *)
Lemma ascending_range l : forall a,
  StronglySorted lt l ->
  Forall (fun k => (a <= k < a + length l)%nat) l ->
  l = seq a (length l).
Proof.
  induction l as [|k l IH]; intros a Hs Hall; simpl; [reflexivity|].
  apply StronglySorted_inv in Hs as [Hrest Hk].
  apply Forall_cons in Hall as [Hka Hall]. simpl in Hka, Hall.
  assert (Htail : l = seq (S a) (length l)).
  { apply IH; [exact Hrest|].
    rewrite Forall_forall in *. intros x Hx.
    specialize (Hk x Hx). specialize (Hall x Hx). lia. }
  assert (Hk_eq : k = a).
  { destruct l as [|x l']; [simpl in Hka; lia|].
    simpl in Htail. injection Htail as Hx _.
    apply Forall_cons in Hk as [Hkx _]. lia. }
  now rewrite Hk_eq, <- Htail.
Qed.

Lemma length_Object_keys obj : length (Object_keys obj) = length obj.
Proof. unfold Object_keys. apply length_map. Qed.

(** With as many selections as there are slots, the selected indices are
    all the slot indices, in order. *)
Lemma complete_keys st :
  wellFormed st -> isComplete st = true ->
  phase st = review
  /\ slotKeys (selectedTags st) = seq 0 (length (inputs st)).
Proof.
  intros [Hlen Hsorted Hbound] Hc. unfold isComplete in Hc.
  apply andb_prop in Hc as [Hph Hn].
  apply bool_decide_eq_true in Hph. split; [exact Hph|].
  apply Nat.eqb_eq in Hn. rewrite length_Object_keys in Hn.
  assert (Hkeys : length (slotKeys (selectedTags st)) = length (inputs st)).
  { unfold slotKeys. rewrite length_map. lia. }
  rewrite <- Hkeys. apply ascending_range; [exact Hsorted|].
  eapply Forall_impl; [exact Hbound|]. simpl. intros k Hk. lia.
Qed.

Lemma getSlot_lookup obj : forall j i v,
  StronglySorted lt (slotKeys obj) ->
  obj !! j = Some (i, v) -> getSlot i obj = Some v.
Proof.
  induction obj as [|[k w] obj IH]; intros j i v Hs Hj; [discriminate|].
  simpl in Hs. apply StronglySorted_inv in Hs as [Hrest Hk].
  destruct j as [|j]; simpl in *.
  - injection Hj as -> ->. now rewrite Nat.eqb_refl.
  - destruct (Nat.eqb_spec k i) as [->|Hne].
    + exfalso. rewrite Forall_forall in Hk.
      assert (Hin : i ∈ slotKeys obj).
      { unfold slotKeys. apply list_elem_of_fmap.
        exists (i, v). split; [reflexivity|].
        apply list_elem_of_lookup. now exists j. }
      specialize (Hk i Hin). lia.
    + now apply (IH j).
Qed.

(** *** What a press on Save and on Finish did *)

Lemma react_Next o st' : react o = Next st' -> o = Returns st'.
Proof. destruct o; simpl; [now intros [= ->] | discriminate]. Qed.

Lemma handleSaveMapping_Returns now index label st st' :
  handleSaveMapping now index label st = Returns st' ->
  (truthy (trim label) = false /\ st' = st)
  \/ (truthy (trim label) = true
      /\ exists s',
           snd (addTag now (digitAt st index) (trim label) (appState st))
           = Returns s'
           /\ st' = setSelectedTags
                      (setSlot index (nextIdOf now (digitAt st index))
                         (selectedTags st))
                      (setAppState s' st)).
Proof.
  unfold handleSaveMapping. fold (digitAt st index).
  destruct (truthy (trim label)) eqn:Hlabel; simpl.
  - destruct (getProperty (mappings (appState st)) (digitAt st index));
      try discriminate; rewrite nextIdOf_truthy; intros [= <-];
      right; (split; [reflexivity|]); eexists; split; reflexivity.
  - intros [= <-]. now left.
Qed.

Lemma handleFinish_Returns now st st' :
  handleFinish now st = Returns st' ->
  exists next,
    recordTest (resultOf now st) (usedTagsOf st) (appState st) = Returns next
    /\ st' = setPhase idle (setAppState next st).
Proof.
  unfold handleFinish.
  destruct (recordTest _ _ _) as [next|]; [|discriminate].
  intros [= <-]. now exists next.
Qed.

(** *** The invariant *)

Lemma wellFormed_initial s0 : wellFormed (initialScreen s0).
Proof. split; simpl; constructor. Qed.

Lemma wellFormed_startTest digitDraw value st :
  0 <= digitDraw ->
  0 <= value
  < 10 ^ (digitDraw + fst (digits (difficultyConfig (difficulty st)))) ->
  wellFormed (startTest digitDraw value st).
Proof.
  intros Hdraw Hvalue. unfold startTest.
  destruct (digits (difficultyConfig (difficulty st))) as [lo hi] eqn:Hcfg.
  assert (Hlo : 3 <= lo).
  { destruct (difficulty st); simpl in Hcfg; injection Hcfg as <- _; lia. }
  simpl in Hvalue.
  split; simpl; [|constructor|constructor].
  rewrite length_replicate. apply length_randomNumber; [lia|].
  rewrite Z2Nat.id by lia. exact Hvalue.
Qed.

Lemma wellFormed_handleInputChange value index st :
  wellFormed st -> wellFormed (handleInputChange value index st).
Proof.
  intros [Hlen Hsorted Hbound]. unfold handleInputChange.
  destruct (isDigitOrEmpty value); simpl; [|now split].
  destruct (forallb _ _); split; simpl; rewrite ?length_insert; assumption.
Qed.

Lemma wellFormed_select index tagId st :
  (index < length (inputs st))%nat ->
  wellFormed st -> wellFormed (handleSelectTag index tagId st).
Proof.
  intros Hindex [Hlen Hsorted Hbound]. split; simpl.
  - exact Hlen.
  - now apply setSlot_sorted.
  - now apply setSlot_Forall.
Qed.

Lemma wellFormed_handleSaveMapping now index label st st' :
  (index < length (inputs st))%nat ->
  wellFormed st ->
  handleSaveMapping now index label st = Returns st' ->
  wellFormed st'.
Proof.
  intros Hindex Hwf Hsave.
  apply handleSaveMapping_Returns in Hsave as [[_ ->]|(_ & s' & _ & ->)];
    [exact Hwf|].
  destruct Hwf as [Hlen Hsorted Hbound]. split; simpl.
  - exact Hlen.
  - now apply setSlot_sorted.
  - now apply setSlot_Forall.
Qed.

Lemma wellFormed_step ev st st' :
  wellFormed st -> step ev st = Next st' -> wellFormed st'.
Proof.
  intros Hwf Hstep. destruct ev; simpl in Hstep.
  - destruct (unlocked st); [|discriminate].
    injection Hstep as <-. destruct Hwf. now split.
  - destruct (digits (difficultyConfig (difficulty st))) as [lo hi] eqn:Hcfg.
    destruct (_ && _) eqn:Hguard in Hstep; [|discriminate].
    injection Hstep as <-.
    repeat (apply andb_prop in Hguard as [Hguard ?]).
    apply wellFormed_startTest; [lia|]. rewrite Hcfg. simpl. lia.
  - destruct (timers st !! i) as [t|]; [|discriminate].
    injection Hstep as <-. destruct Hwf.
    destruct (callback t); now split.
  - destruct (_ && _) in Hstep; [|discriminate].
    injection Hstep as <-. now apply wellFormed_handleInputChange.
  - destruct (_ && _) eqn:Hguard in Hstep; [|discriminate].
    injection Hstep as <-.
    repeat (apply andb_prop in Hguard as [Hguard ?]).
    apply wellFormed_select; [|exact Hwf]. now apply Nat.ltb_lt.
  - destruct (_ && _) in Hstep; [|discriminate].
    injection Hstep as <-. destruct Hwf. now split.
  - destruct (_ && _) eqn:Hguard in Hstep; [|discriminate].
    apply react_Next in Hstep.
    repeat (apply andb_prop in Hguard as [Hguard ?]).
    eapply wellFormed_handleSaveMapping; [|exact Hwf|exact Hstep].
    now apply Nat.ltb_lt.
  - destruct (_ && _) in Hstep; [|discriminate].
    apply react_Next, handleFinish_Returns in Hstep as (next & _ & ->).
    destruct Hwf. now split.
  - destruct (applyOp op (appState st)) as [s'|]; [|discriminate].
    injection Hstep as <-. destruct Hwf. now split.
Qed.

Lemma wellFormed_reachable s0 st : reachable s0 st -> wellFormed st.
Proof.
  induction 1 as [|ev st st' _ IH Hstep]; [apply wellFormed_initial|].
  exact (wellFormed_step ev st st' IH Hstep).
Qed.

Lemma run_reachable s0 events : forall st st',
  reachable s0 st -> run events st = Some st' -> reachable s0 st'.
Proof.
  induction events as [|ev events IH]; intros st st' Hst Hrun; simpl in Hrun.
  - now injection Hrun as <-.
  - destruct (step ev st) as [st1| |] eqn:Hstep; try discriminate.
    apply (IH st1 st'); [|exact Hrun].
    exact (reachable_step s0 ev st st1 Hst Hstep).
Qed.

(** *** The store under the screen *)



(** *** Tags are never taken away *)

Lemma find_app_Some {A} (p : A -> bool) l l' :
  is_Some (List.find p l) -> is_Some (List.find p (l ++ l')).
Proof.
  induction l as [|x l IH]; simpl; [intros [? [=]]|].
  destruct (p x); [trivial | exact IH].
Qed.

Lemma find_map_Some {A} (p : A -> bool) (f : A -> A) l :
  (forall x, p (f x) = p x) ->
  is_Some (List.find p l) -> is_Some (List.find p (map f l)).
Proof.
  intros Hf. induction l as [|x l IH]; simpl; [trivial|].
  rewrite Hf. destruct (p x); [intros _; now eexists | exact IH].
Qed.

Lemma find_last_Some {A} (p : A -> bool) l x :
  p x = true -> is_Some (List.find p (l ++ [x])).
Proof.
  intros Hx. induction l as [|y l IH]; simpl.
  - rewrite Hx. now eexists.
  - destruct (p y); [now eexists | exact IH].
Qed.

Lemma findTag_insert s M k mapping mapping' key id :
  mappings s !! k = Some mapping ->
  (forall id', is_Some (List.find (fun item => String.eqb (tag_id item) id')
                          (tags mapping)) ->
               is_Some (List.find (fun item => String.eqb (tag_id item) id')
                          (tags mapping'))) ->
  is_Some (findTag s key id) ->
  is_Some (findTag {| mappings := <[k := mapping']> (mappings s); tests := M |}
             key id).
Proof.
  intros Hk Hkeep. unfold findTag. simpl.
  destruct (decide (k = key)) as [<-|Hne].
  - rewrite lookup_insert_eq, Hk. apply Hkeep.
  - now rewrite lookup_insert_ne.
Qed.

Lemma findTag_addTag now numberValue label s s' key id :
  snd (addTag now numberValue label s) = Returns s' ->
  is_Some (findTag s key id) -> is_Some (findTag s' key id).
Proof.
  unfold addTag. simpl.
  destruct (getProperty (mappings s) numberValue) as [mapping| |] eqn:Hget;
    intros [= <-]; [|trivial].
  apply getProperty_Own in Hget. unfold setMappings.
  apply (findTag_insert s _ _ mapping); [exact Hget|].
  intros id'. apply find_app_Some.
Qed.

Lemma findTag_updateTag numberValue tagId label s s' key id :
  updateTag numberValue tagId label s = Returns s' ->
  is_Some (findTag s key id) -> is_Some (findTag s' key id).
Proof.
  unfold updateTag.
  destruct (getProperty (mappings s) numberValue) as [mapping| |] eqn:Hget;
    intros [= <-]; [|trivial].
  apply getProperty_Own in Hget. unfold setMappings.
  apply (findTag_insert s _ _ mapping); [exact Hget|].
  intros id'. apply find_map_Some. intros tag. unfold relabel.
  now destruct (String.eqb (tag_id tag) tagId).
Qed.

Lemma findTag_forEach us : forall M M' T T' key id,
  forEach M us = Returns M' ->
  is_Some (findTag {| mappings := M; tests := T |} key id) ->
  is_Some (findTag {| mappings := M'; tests := T' |} key id).
Proof.
  induction us as [|u us IH]; intros M M' T T' key id; cbn [forEach].
  - now intros [= <-].
  - unfold applyUsedTag.
    destruct (getProperty M (numberValue u)) as [mapping| |] eqn:Hget;
      [|discriminate|apply IH].
    apply getProperty_Own in Hget. intros Hrun Hfound.
    apply (IH _ _ T T' key id Hrun).
    apply (findTag_insert {| mappings := M; tests := T |} T _ mapping);
      [exact Hget| |exact Hfound].
    intros id'. apply find_map_Some. intros tag. now rewrite bump_id.
Qed.

Lemma findTag_recordTest result usedTags s s' key id :
  recordTest result usedTags s = Returns s' ->
  is_Some (findTag s key id) -> is_Some (findTag s' key id).
Proof.
  unfold recordTest.
  destruct (forEach (mappings s) usedTags) as [M'|] eqn:Hrun;
    intros [= <-]. destruct s as [M T]. simpl in Hrun.
  exact (findTag_forEach usedTags M M' T _ key id Hrun).
Qed.

Lemma findTag_applyOp op s s' key id :
  applyOp op s = Returns s' ->
  is_Some (findTag s key id) -> is_Some (findTag s' key id).
Proof.
  destruct op as [now numberValue label|numberValue tagId label
                 |result usedTags]; simpl.
  - apply findTag_addTag.
  - apply findTag_updateTag.
  - apply findTag_recordTest.
Qed.

(** *** The digits of the number and their mappings *)

Lemma filter_all {A} (f : A -> bool) l :
  length (List.filter f l) = length l -> Forall (fun x => f x = true) l.
Proof.
  induction l as [|x l IH]; simpl; [constructor|].
  pose proof (List.filter_length_le f l) as Hle.
  destruct (f x) eqn:Hx; simpl; intros Hlen; [|lia].
  constructor; [exact Hx | apply IH; lia].
Qed.

(** Once practice is unlocked, each of the ten digits has a mapping. *)
Lemma unlocked_mapping st (d : nat) :
  unlocked st = true -> (d < 10)%nat ->
  exists mapping,
    mappings (appState st) !! toString (Z.of_nat d) = Some mapping.
Proof.
  intros Hun Hd. unfold unlocked, mappedDigits in Hun.
  apply Nat.eqb_eq in Hun.
  assert (Hall : Forall (fun digit => hasTags (appState st) digit = true)
                   (map (fun i => toString (Z.of_nat i)) (seq 0 10))).
  { apply filter_all. rewrite Hun. reflexivity. }
  rewrite Forall_forall in Hall.
  assert (Hin : toString (Z.of_nat d)
                ∈ map (fun i => toString (Z.of_nat i)) (seq 0 10)).
  { apply list_elem_of_In.
    apply (in_map (fun i => toString (Z.of_nat i))). apply in_seq. lia. }
  specialize (Hall _ Hin). unfold hasTags in Hall.
  destruct (mappings (appState st) !! toString (Z.of_nat d)) as [mapping|];
    [now exists mapping | discriminate].
Qed.

Lemma digitAt_digit st i :
  allDigits (currentNumber st) = true ->
  (i < String.length (currentNumber st))%nat ->
  exists d : nat, (d < 10)%nat /\ digitAt st i = toString (Z.of_nat d).
Proof.
  intros Hdigits Hi. unfold digitAt, charAt.
  destruct (get_lt _ _ Hi) as [c Hc]. rewrite Hc. simpl.
  apply digit_toString. exact (allDigits_charAt _ _ _ Hdigits Hc).
Qed.



(** *** The second invariant *)

Lemma setSlot_entries (P : nat * string -> Prop) i v obj :
  P (i, v) -> Forall P obj -> Forall P (setSlot i v obj).
Proof.
  intros Hi. induction obj as [|[k w] obj IH]; simpl; intros Hall.
  - constructor; [exact Hi | constructor].
  - apply Forall_cons in Hall as [Hk Hrest].
    destruct (i <? k)%nat; [|destruct (i =? k)%nat].
    + constructor; [exact Hi|]. now constructor.
    + now constructor.
    + constructor; [exact Hk | now apply IH].
Qed.

Lemma sessionOk_initial s0 : sessionOk (initialScreen s0).
Proof. split; [reflexivity | constructor]. Qed.

Lemma sessionOk_store st st' :
  sessionOk st ->
  currentNumber st' = currentNumber st ->
  selectedTags st' = selectedTags st ->
  (forall key id, is_Some (findTag (appState st) key id) ->
                  is_Some (findTag (appState st') key id)) ->
  sessionOk st'.
Proof.
  intros [Hd Hsel] Hnum Hs Hkeep. split; [now rewrite Hnum|].
  rewrite Hs. eapply Forall_impl; [exact Hsel|].
  intros entry. unfold digitAt. rewrite Hnum. apply Hkeep.
Qed.

Lemma sessionOk_step ev st st' :
  wellFormed st -> sessionOk st -> step ev st = Next st' -> sessionOk st'.
Proof.
  intros Hwf Hok Hstep. destruct ev; simpl in Hstep.
  - destruct (unlocked st); [|discriminate]. injection Hstep as <-.
    now apply (sessionOk_store st).
  - destruct (digits (difficultyConfig (difficulty st))) as [lo hi].
    destruct (_ && _) eqn:Hguard in Hstep; [|discriminate].
    injection Hstep as <-.
    repeat (apply andb_prop in Hguard as [Hguard ?]).
    unfold startTest. destruct (digits _). split; simpl; [|constructor].
    apply allDigits_randomNumber. lia.
  - destruct (timers st !! i) as [t|]; [|discriminate].
    injection Hstep as <-.
    apply (sessionOk_store st); [exact Hok| | |trivial];
      now destruct (callback t).
  - destruct (_ && _) in Hstep; [|discriminate]. injection Hstep as <-.
    apply (sessionOk_store st); [exact Hok| | |];
      unfold handleInputChange; destruct (negb _); try reflexivity;
      try (destruct (forallb _ _); reflexivity); trivial;
      destruct (forallb _ _); trivial.
  - destruct (_ && _) eqn:Hguard in Hstep; [|discriminate].
    injection Hstep as <-.
    apply andb_prop in Hguard as [_ Hfound].
    apply bool_decide_eq_true in Hfound.
    destruct Hok as [Hd Hsel]. split; [exact Hd|]. simpl.
    apply setSlot_entries; [exact Hfound | exact Hsel].
  - destruct (_ && _) in Hstep; [|discriminate]. injection Hstep as <-.
    now apply (sessionOk_store st).
  - destruct (_ && _) eqn:Hguard in Hstep; [|discriminate].
    repeat (apply andb_prop in Hguard as [Hguard ?]).
    apply react_Next, handleSaveMapping_Returns in Hstep
      as [[_ ->]|(_ & s' & Hadd & ->)]; [exact Hok|].
    destruct Hok as [Hd Hsel].
    assert (Hindex : (index < String.length (currentNumber st))%nat).
    { rewrite (wf_length st Hwf). now apply Nat.ltb_lt. }
    destruct (digitAt_digit st index Hd Hindex) as (d & Hd10 & Hdigit).
    destruct (unlocked_mapping st d Hguard Hd10) as [mapping Hmapping].
    rewrite <- Hdigit in Hmapping.
    split; [exact Hd|]. simpl. apply setSlot_entries.
    + simpl. change (digitAt _ index) with (digitAt st index).
      revert Hadd. unfold addTag, getProperty. simpl. rewrite Hmapping.
      intros [= <-]. unfold findTag. simpl. rewrite lookup_insert_eq. simpl.
      apply find_last_Some. simpl. apply String.eqb_refl.
    + eapply Forall_impl; [exact Hsel|]. intros entry.
      change (digitAt _ (fst entry)) with (digitAt st (fst entry)).
      exact (findTag_addTag _ _ _ _ _ _ _ Hadd).
  - destruct (_ && _) in Hstep; [|discriminate].
    apply react_Next, handleFinish_Returns in Hstep as (next & Hrec & ->).
    apply (sessionOk_store st); [exact Hok|reflexivity|reflexivity|].
    intros key id. exact (findTag_recordTest _ _ _ _ key id Hrec).
  - destruct (applyOp op (appState st)) as [s'|] eqn:Hop; [|discriminate].
    injection Hstep as <-.
    apply (sessionOk_store st); [exact Hok|reflexivity|reflexivity|].
    intros key id. exact (findTag_applyOp op _ _ key id Hop).
Qed.

Lemma sessionOk_reachable s0 st : reachable s0 st -> sessionOk st.
Proof.
  induction 1 as [|ev st st' Hreach IH Hstep]; [apply sessionOk_initial|].
  exact (sessionOk_step ev st st' (wellFormed_reachable s0 st Hreach) IH Hstep).
Qed.

End SessionLemmas.

(** *** Two sessions *)

Section Sessions.

Lemma screenAfter_reachable events :
  offered events = true -> reachable seedState (screenAfter events).
Proof.
  unfold offered, screenAfter. intros Hrun.
  destruct (run events (initialScreen seedState)) as [st|] eqn:Hst;
    [|discriminate].
  simpl.
  exact (run_reachable seedState events _ st (reachable_init seedState) Hst).
Qed.

Lemma wrongDigitScreen_reachable : reachable seedState wrongDigitScreen.
Proof. apply screenAfter_reachable. vm_compute. reflexivity. Qed.

Lemma elevenDigitScreen_reachable : reachable seedState elevenDigitScreen.
Proof. apply screenAfter_reachable. vm_compute. reflexivity. Qed.

End Sessions.

(** ** Claims about the practice session *)

Section SessionClaims.

Lemma run_app events : forall events' st,
  run (events ++ events') st
  = match run events st with
    | Some st' => run events' st'
    | None => None
    end.
Proof.
  induction events as [|ev events IH]; intros events' st; simpl;
    [reflexivity|].
  destruct (step ev st); [apply IH | reflexivity | reflexivity].
Qed.

(** The last event of a session that was offered throughout. *)
Lemma screenAfter_last events ev :
  offered (events ++ [ev]) = true ->
  reachable seedState (screenAfter events)
  /\ step ev (screenAfter events) = Next (screenAfter (events ++ [ev])).
Proof.
  unfold offered, screenAfter. rewrite run_app.
  destruct (run events (initialScreen seedState)) as [st|] eqn:Hrun;
    [|discriminate].
  simpl. intros Hlast. split.
  - exact (run_reachable seedState events _ st (reachable_init seedState) Hrun).
  - now destruct (step ev st).
Qed.

(** The slots of a complete screen, one selection each. *)
Lemma complete_slots st :
  wellFormed st -> isComplete st = true ->
  forall i, (i < length (inputs st))%nat ->
    exists tagId,
      selectedTags st !! i = Some (i, tagId)
      /\ getSlot i (selectedTags st) = Some tagId.
Proof.
  intros Hwf Hc i Hi.
  destruct (complete_keys st Hwf Hc) as [_ Hkeys].
  assert (Hat : slotKeys (selectedTags st) !! i = Some i).
  { rewrite Hkeys. now apply lookup_seq_lt. }
  unfold slotKeys in Hat. rewrite lookup_map in Hat.
  destruct (selectedTags st !! i) as [[k v]|] eqn:Hentry;
    simpl in Hat; [|discriminate].
  injection Hat as ->. exists v. split; [reflexivity|].
  apply (getSlot_lookup _ i); [apply Hwf | exact Hentry].
Qed.

(** C1, as amended.  The finish control is enabled only in the review
    phase and only once every slot has a selection recorded.  A slot whose
    input differs from the target digit is not kept from it: a press on Save
    in such a slot with a non-blank text in its edit field adds a tag with
    that text, trimmed, and no uses to the mapping of the digit of the slot,
    and records the new tag as the selection of the slot, which stays wrong
    (a blank text changes nothing); and a session with a wrong digit does
    reach a screen where the finish control is enabled. *)
Theorem finish_gate :
  (forall s0 st,
     reachable s0 st -> isComplete st = true ->
     phase st = review
     /\ forall i, (i < length (inputs st))%nat ->
                  is_Some (getSlot i (selectedTags st)))
  /\ (forall s0 st now index st',
        reachable s0 st ->
        step (PressSave now index) st = Next st' ->
        slotCorrect st index = false
        /\ slotCorrect st' index = false
        /\ (truthy (trim (default "" (getSlot index (editInputs st)))) = false ->
            st' = st)
        /\ (truthy (trim (default "" (getSlot index (editInputs st)))) = true ->
            exists mapping,
              mappings (appState st) !! digitAt st index = Some mapping
              /\ mappings (appState st') !! digitAt st index
                 = Some (setTags mapping
                           (tags mapping
                              ++ [ {| tag_id := nextIdOf now (digitAt st index);
                                      label :=
                                        trim (default ""
                                                (getSlot index (editInputs st)));
                                      usageCount := 0;
                                      successCount := 0 |} ]))
              /\ getSlot index (selectedTags st')
                 = Some (nextIdOf now (digitAt st index))))
  /\ (exists st i,
        reachable seedState st /\ isComplete st = true
        /\ (i < length (inputs st))%nat /\ slotCorrect st i = false).
Proof.
  split; [|split].
  - intros s0 st Hreach Hc.
    pose proof (wellFormed_reachable s0 st Hreach) as Hwf.
    destruct (complete_keys st Hwf Hc) as [Hph _].
    split; [exact Hph|]. intros i Hi.
    destruct (complete_slots st Hwf Hc i Hi) as (v & _ & Hv). now exists v.
  - intros s0 st now index st' Hreach Hstep.
    pose proof (wellFormed_reachable s0 st Hreach) as Hwf.
    destruct (sessionOk_reachable s0 st Hreach) as [Hdigits _].
    simpl in Hstep.
    destruct (_ && _) eqn:Hguard in Hstep; [|discriminate].
    repeat (apply andb_prop in Hguard as [Hguard ?]).
    assert (Hwrong : slotCorrect st index = false)
      by now apply Bool.negb_true_iff.
    assert (Hindex : (index < String.length (currentNumber st))%nat).
    { rewrite (wf_length st Hwf). now apply Nat.ltb_lt. }
    apply react_Next, handleSaveMapping_Returns in Hstep
      as [[Hblank ->]|(Hlabel & s' & Hadd & ->)].
    + split; [exact Hwrong|]. split; [exact Hwrong|].
      split; [trivial|]. rewrite Hblank. discriminate.
    + split; [exact Hwrong|]. split; [exact Hwrong|].
      split; [rewrite Hlabel; discriminate|]. intros _.
      destruct (digitAt_digit st index Hdigits Hindex) as (d & Hd10 & Hdigit).
      destruct (unlocked_mapping st d Hguard Hd10) as [mapping Hmapping].
      rewrite <- Hdigit in Hmapping. exists mapping.
      split; [exact Hmapping|]. simpl.
      revert Hadd. unfold addTag, getProperty. simpl. rewrite Hmapping.
      intros [= <-]. simpl. rewrite lookup_insert_eq.
      split; [reflexivity | apply getSlot_setSlot].
  - exists wrongDigitScreen, 2%nat.
    split; [apply wrongDigitScreen_reachable|].
    split; [vm_compute; reflexivity|].
    split; [apply Nat.ltb_lt; vm_compute; reflexivity|].
    vm_compute; reflexivity.
Qed.

Lemma finish_gate_witness :
  reachable seedState (screenAfter wrongDigitStart)
  /\ step (PressSave 5000 2) (screenAfter wrongDigitStart)
     = Next wrongDigitScreen
  /\ slotCorrect wrongDigitScreen 2 = false
  /\ getSlot 2 (selectedTags wrongDigitScreen) = Some "2-5000"
  /\ isComplete wrongDigitScreen = true.
Proof.
  assert (Hoffered : offered (wrongDigitStart ++ [PressSave 5000 2]) = true)
    by (vm_compute; reflexivity).
  destruct (screenAfter_last wrongDigitStart (PressSave 5000 2) Hoffered)
    as [Hreach Hstep].
  assert (Hlabel :
            truthy (trim (default ""
                            (getSlot 2 (editInputs (screenAfter wrongDigitStart)))))
            = true) by (vm_compute; reflexivity).
  assert (Hid : nextIdOf 5000 (digitAt (screenAfter wrongDigitStart) 2)
                = "2-5000") by (vm_compute; reflexivity).
  destruct (proj1 (proj2 finish_gate) seedState (screenAfter wrongDigitStart)
              5000 2%nat _ Hreach Hstep)
    as (_ & Hwrong & _ & Hsaved).
  destruct (Hsaved Hlabel) as (mapping & _ & _ & Hsel).
  rewrite Hid in Hsel.
  split; [exact Hreach|]. split; [exact Hstep|].
  split; [exact Hwrong|]. split; [exact Hsel|].
  vm_compute; reflexivity.
Defined.

(** C1 as stated fails: the session on "042" answered "043" reaches a
    screen where the third slot is wrong and the finish control is
    enabled. *)
Lemma wrong_digit_becomes_finishable :
  reachable seedState wrongDigitScreen
  /\ currentNumber wrongDigitScreen = "042"
  /\ inputs wrongDigitScreen = ["0"; "4"; "3"]
  /\ slotCorrect wrongDigitScreen 2 = false
  /\ isComplete wrongDigitScreen = true.
Proof.
  split; [apply wrongDigitScreen_reachable|].
  by_computation.
Qed.




End SessionClaims.

(** ** Claims about the chosen string *)

Section ChosenStringClaims.

Lemma Object_keys_keyText obj : Object_keys obj = map keyText (slotKeys obj).
Proof. unfold Object_keys, slotKeys. now rewrite map_map. Qed.

(** Sorting leaves a sorted list as it is. *)
Lemma sortStrings_sorted l : StronglySorted textLe l -> sortStrings l = l.
Proof.
  induction l as [|x l IH]; intros Hs; [reflexivity|].
  apply StronglySorted_inv in Hs as [Hrest Hx].
  unfold sortStrings in *. simpl. rewrite (IH Hrest).
  destruct l as [|y l']; [reflexivity|]. simpl.
  apply Forall_cons in Hx as [Hxy _]. unfold textLe in Hxy. now rewrite Hxy.
Qed.

(** Below ten, the order of the key texts is the order of the keys, and
    [Number] reads a key text back. *)
Lemma small_keys a b :
  (a < b < 10)%nat ->
  textLe (keyText a) (keyText b) /\ NumberOfKey (keyText b) = Some b.
Proof.
  intros Hab.
  assert (Hall : forallb (fun b' =>
                   bool_decide (NumberOfKey (keyText b') = Some b')
                   && forallb (fun a' => (b' <=? a')%nat
                                         || String.leb (keyText a') (keyText b'))
                        (seq 0 10))
                   (seq 0 10) = true) by (vm_compute; reflexivity).
  rewrite forallb_forall in Hall.
  specialize (Hall b). rewrite in_seq in Hall.
  specialize (Hall ltac:(lia)). apply andb_prop in Hall as [Hnum Hle].
  apply bool_decide_eq_true in Hnum. split; [|exact Hnum].
  rewrite forallb_forall in Hle. specialize (Hle a). rewrite in_seq in Hle.
  specialize (Hle ltac:(lia)). apply orb_prop in Hle as [Hge|Hle].
  - apply Nat.leb_le in Hge. lia.
  - exact Hle.
Qed.

Lemma small_key_number b :
  (b < 10)%nat -> NumberOfKey (keyText b) = Some b.
Proof.
  intros Hb. destruct b as [|b]; [reflexivity|].
  apply (small_keys 0 (S b)). lia.
Qed.

Lemma keyTexts_sorted keys :
  StronglySorted lt keys -> Forall (fun k => (k < 10)%nat) keys ->
  StronglySorted textLe (map keyText keys).
Proof.
  induction keys as [|k keys IH]; intros Hs Hb; simpl; constructor.
  - apply StronglySorted_inv in Hs as [Hrest _].
    apply Forall_cons in Hb as [_ Hb]. now apply IH.
  - apply StronglySorted_inv in Hs as [_ Hk].
    apply Forall_cons in Hb as [_ Hb].
    apply Forall_map. rewrite Forall_forall in *. intros x Hx.
    apply (small_keys k x). specialize (Hk x Hx). specialize (Hb x Hx). lia.
Qed.

(** C8, as amended.  In a session of ten slots at most, the chosen string
    is made of the labels of the tags selected, one for each slot that has a
    selection, in ascending order of the slot index, joined by single spaces;
    a selection whose tag is not among the tags of the digit stands for the
    empty label, and a slot without selection adds nothing. *)
Theorem chosenString_joined s0 st :
  reachable s0 st ->
  (String.length (currentNumber st) <= 10)%nat ->
  StronglySorted lt (map fst (selectedTags st))
  /\ chosenString st = join " " (map (labelOfEntry st) (selectedTags st)).
Proof.
  intros Hreach Hten.
  destruct (wellFormed_reachable s0 st Hreach) as [Hlen Hsorted Hbound].
  split; [exact Hsorted|].
  assert (Hsmall : Forall (fun k => (k < 10)%nat) (slotKeys (selectedTags st))).
  { eapply Forall_impl; [exact Hbound|]. simpl. intros k Hk. lia. }
  unfold chosenString.
  rewrite Object_keys_keyText.
  rewrite (sortStrings_sorted _ (keyTexts_sorted _ Hsorted Hsmall)).
  unfold slotKeys. rewrite !map_map. f_equal.
  apply map_ext_in. intros [k v] Hin. simpl.
  assert (Hk : (k < 10)%nat).
  { rewrite Forall_forall in Hsmall. apply Hsmall.
    unfold slotKeys. apply list_elem_of_fmap. exists (k, v).
    split; [reflexivity | now apply list_elem_of_In]. }
  rewrite (small_key_number k Hk). unfold labelOfSlot, labelOfEntry. simpl.
  apply list_elem_of_In, list_elem_of_lookup in Hin as [j Hj].
  now rewrite (getSlot_lookup _ j k v Hsorted Hj).
Qed.

Lemma chosenString_joined_witness :
  reachable seedState wrongDigitScreen
  /\ (String.length (currentNumber wrongDigitScreen) <= 10)%nat
  /\ chosenString wrongDigitScreen
     = join " " (map (labelOfEntry wrongDigitScreen)
                     (selectedTags wrongDigitScreen)).
Proof.
  assert (Hten : (String.length (currentNumber wrongDigitScreen) <= 10)%nat).
  { assert (Hb : (String.length (currentNumber wrongDigitScreen) <=? 10)%nat
                 = true) by (vm_compute; reflexivity).
    now apply Nat.leb_le. }
  split; [apply wrongDigitScreen_reachable|]. split; [exact Hten|].
  exact (proj2 (chosenString_joined seedState wrongDigitScreen
                  wrongDigitScreen_reachable Hten)).
Defined.

(** C8 as stated fails.  With the slots 2 and 10 of an eleven-digit test
    selected, the label of slot 10 comes before the label of slot 2; and with
    the three slots of "042" selected, the labels are separated by
    spaces. *)
Lemma chosenString_not_in_slot_order :
  reachable seedState elevenDigitScreen
  /\ currentNumber elevenDigitScreen = "01234567890"
  /\ selectedTags elevenDigitScreen = [(2%nat, "2-1002"); (10%nat, "0-1000")]
  /\ map (labelOfEntry elevenDigitScreen) (selectedTags elevenDigitScreen)
     = ["noah"; "zoo"]
  /\ chosenString elevenDigitScreen = "zoo noah"
  /\ chosenString elevenDigitScreen
     <> String.concat ""
          (map (labelOfEntry elevenDigitScreen)
               (selectedTags elevenDigitScreen))
  /\ chosenString elevenDigitScreen
     <> join " " (map (labelOfEntry elevenDigitScreen)
                      (selectedTags elevenDigitScreen))
  /\ chosenString wrongDigitScreen = "zoo rye inn"
  /\ String.concat ""
       (map (labelOfEntry wrongDigitScreen) (selectedTags wrongDigitScreen))
     = "zooryeinn".
Proof.
  split; [apply elevenDigitScreen_reachable|].
  assert (Hchosen : chosenString elevenDigitScreen = "zoo noah")
    by (vm_compute; reflexivity).
  assert (Hlabels : map (labelOfEntry elevenDigitScreen)
                        (selectedTags elevenDigitScreen) = ["noah"; "zoo"])
    by (vm_compute; reflexivity).
  split; [vm_compute; reflexivity|].
  split; [vm_compute; reflexivity|].
  split; [exact Hlabels|]. split; [exact Hchosen|].
  rewrite Hchosen, Hlabels.
  split; [discriminate|]. split; [discriminate|].
  by_computation.
Qed.

End ChosenStringClaims.
